(** * Pingnoo: the ICMP ping transmitter

    A shallow embedding of
    [src/components/ICMPPingEngine/ICMPPingTransmitter.cpp] and of the part of
    the [IPingEngine] contract it implements.

    The file has two halves.  The first follows [doWork] statement by
    statement in a small state-and-trace monad: every call the C++ makes on a
    collaborator (engine, socket, packet builder, logger, timer, mutex) is an
    [event], and the order of the events is the order of the calls.  The
    second half ([Module Interleaving]) looks at the two critical sections of
    the file, the one on [m_sequenceMutex] and the one on [m_targetsMutex],
    as instruction-level steps of several threads run under an arbitrary
    schedule. *)

From Stdlib Require Import String ZArith List Bool Lia.
Import ListNotations.
Local Open Scope Z_scope.

(** ** Machine integers *)

(** The two C++ data models the project builds for: [unsigned long] is 64
    bits wide on Linux and macOS and 32 bits wide on Windows. *)
Inductive DataModel := LP64 | LLP64.

Definition ulong_bits (dm : DataModel) : Z :=
  match dm with LP64 => 64 | LLP64 => 32 end.

(** Conversion to an unsigned type of [bits] bits. *)
Definition to_unsigned (bits x : Z) : Z := x mod 2 ^ bits.

Definition to_uint16 (x : Z) : Z := to_unsigned 16 x.
Definition to_ulong (dm : DataModel) (x : Z) : Z := to_unsigned (ulong_bits dm) x.

Definition UINT16_MAX : Z := 65535.
Definition INT_MIN : Z := - 2 ^ 31.
Definition INT_MAX : Z := 2 ^ 31 - 1.

(** The values of the C++ type [int]. *)
Definition is_int (x : Z) : Prop := INT_MIN <= x <= INT_MAX.

(** ** Collaborating classes *)

Definition QHostAddress := string.
Definition QByteArray := list Z.
Definition QDateTime := Z.

Inductive IPVersion := V4 | V6.

(** Modelled from the spec: [ICMPSocket.h] is not part of the sources.  The
    transmitter reads the time-to-live of a socket for its log line and sends
    through it; what [sendto] returns comes from the operating system and is
    an input of the model ([Environment]). *)
Module ICMPSocket.
Record t := mk { descriptor : Z; ttl : Z }.
End ICMPSocket.

(** Modelled from the spec: [ICMPPingTarget.h] is not part of the sources.
    "PingTarget: { hostAddress, timeToLive, identifier }"; the transmitter
    uses [id()], [hostAddress()] and [socket()]. *)
Module ICMPPingTarget.
Record t := mk { id : Z; hostAddress : QHostAddress; socket : ICMPSocket.t }.
End ICMPPingTarget.

(** Modelled from the spec: [ICMPPingItem.h] is not part of the sources.
    "PingItem: { target, sequenceNumber, sampleNumber, sendTimestamp, ... }";
    the fields are the ones the transmitter sets, [timerStarted] records that
    [startTimer()] has stamped the item. *)
Module ICMPPingItem.
Record t := mk {
  target : option ICMPPingTarget.t;
  id : Z;
  sequenceId : Z;
  sampleNumber : Z;
  timerStarted : bool
}.

(** [new ICMPPingItem()] *)
Definition new : t := mk None 0 0 0 false.

Definition setTarget (x : ICMPPingTarget.t) (i : t) : t :=
  mk (Some x) (id i) (sequenceId i) (sampleNumber i) (timerStarted i).
Definition setId (x : Z) (i : t) : t :=
  mk (target i) x (sequenceId i) (sampleNumber i) (timerStarted i).
Definition setSequenceId (x : Z) (i : t) : t :=
  mk (target i) (id i) x (sampleNumber i) (timerStarted i).
Definition setSampleNumber (x : Z) (i : t) : t :=
  mk (target i) (id i) (sequenceId i) x (timerStarted i).
Definition startTimer (i : t) : t :=
  mk (target i) (id i) (sequenceId i) (sampleNumber i) true.

(** The correlation key of an item. *)
Definition key (i : t) : Z * Z := (id i, sequenceId i).
End ICMPPingItem.

(** A pointer to an [ICMPPingItem]: its index in the store of allocated
    items. *)
Definition ItemPtr := nat.

(** Modelled from the spec: [ICMPPingEngine.cpp] is not part of the sources.
    "epoch() -> measurement start time": [setEpoch] stores the time and
    [epoch] returns what was stored.  "register it in the pending table":
    [addRequest] adds the item (a pointer: the transmitter goes on using the
    same object) to the requests that are in flight; nothing in the
    transmitter retires a request. *)
Module ICMPPingEngine.
Record t := mk {
  version : IPVersion;
  m_epoch : option QDateTime;
  m_pingRequests : list ItemPtr
}.

Definition new (v : IPVersion) : t := mk v None [].

Definition setEpoch (now : QDateTime) (e : t) : t :=
  mk (version e) (Some now) (m_pingRequests e).
Definition epoch (e : t) : option QDateTime := m_epoch e.
Definition addRequest (p : ItemPtr) (e : t) : t :=
  mk (version e) (m_epoch e) (m_pingRequests e ++ [p]).
End ICMPPingEngine.

(** ** The transmitter object *)

(** [constexpr auto DefaultTransmitInterval = 10000;] *)
Definition DefaultTransmitInterval : Z := 10000.

(** [uint16_t ICMPPingTransmitter::m_sequenceId = 1;] *)
Definition initial_sequenceId : Z := 1.

Module ICMPPingTransmitter.
(** The engine is held by pointer; the engine object itself lives in the
    [World]. *)
Record t := mk {
  m_interval : Z;
  m_isRunning : bool;
  m_targets : list ICMPPingTarget.t
}.

(** The constructor. *)
Definition new : t := mk DefaultTransmitInterval false [].

Definition setInterval (interval : Z) (this : t) : bool * t :=
  (true, mk interval (m_isRunning this) (m_targets this)).

Definition addTarget (target : ICMPPingTarget.t) (this : t) : t :=
  mk (m_interval this) (m_isRunning this) (m_targets this ++ [target]).

Definition interval (this : t) : Z := m_interval this.

Definition set_isRunning (b : bool) (this : t) : t :=
  mk (m_interval this) b (m_targets this).
End ICMPPingTransmitter.

(** ** Events, world and environment *)

Inductive Mutex := SequenceMutex | TargetsMutex.

(** What [doWork] does to the outside, in the order it does it. *)
Inductive event :=
| EvSetEpoch (now : QDateTime)
| EvTrace (about : QHostAddress)
| EvError (about : QHostAddress)
| EvRestart
| EvElapsed (ms : Z)
| EvLock (m : Mutex)
| EvUnlock (m : Mutex)
| EvNew (p : ItemPtr)
| EvSequence (sequenceId : Z)
| EvAddRequest (p : ItemPtr)
| EvPingPacket (id sequenceId size : Z) (to : QHostAddress) (v : IPVersion)
| EvSendTo (target : ICMPPingTarget.t) (buffer : QByteArray) (result : Z)
| EvStartTimer (p : ItemPtr)
| EvSleep (ms : Z).

(** Everything the transmitter reads that the program text does not fix:
    the platform; [QDateTime::currentDateTime()] when [doWork] starts;
    [elapsedTimer.elapsed()] in a given round; [ICMPPacket::pingPacket];
    the result of the n-th [sendto] of the run; whether another thread has
    cleared [m_isRunning] by the end of a given round. *)
Record Environment := mkEnvironment {
  dataModel : DataModel;
  currentDateTime : QDateTime;
  elapsed : nat -> Z;
  pingPacket : Z -> Z -> Z -> QHostAddress -> IPVersion -> QByteArray;
  sendto : nat -> ICMPSocket.t -> QByteArray -> QHostAddress -> Z;
  stopRequested : nat -> bool
}.

(** The mutable state [doWork] works on: the static [m_sequenceId], the
    transmitter object, the engine behind [m_engine], the [ICMPPingItem]
    objects created with [new], and the number of [sendto] calls made. *)
Record World := mkWorld {
  m_sequenceId : Z;
  this : ICMPPingTransmitter.t;
  engine : ICMPPingEngine.t;
  items : list ICMPPingItem.t;
  sends : nat
}.

Definition initial_World (tx : ICMPPingTransmitter.t) (v : IPVersion) : World :=
  mkWorld initial_sequenceId tx (ICMPPingEngine.new v) [] 0.

(** ** The monad: state passing with a trace of events *)

Definition M (A : Type) : Type := World -> A * World * list event.

Definition ret {A} (x : A) : M A := fun w => (x, w, []).

Definition bind {A B} (m : M A) (f : A -> M B) : M B :=
  fun w =>
    let '(x, w1, t1) := m w in
    let '(y, w2, t2) := f x w1 in
    (y, w2, t1 ++ t2).

Declare Scope tx_scope.
Delimit Scope tx_scope with tx.
Notation "x <- m ;; k" := (bind m (fun x => k))
  (at level 61, m at next level, right associativity) : tx_scope.
Notation "m ;; k" := (bind m (fun _ => k))
  (at level 61, right associativity) : tx_scope.
Local Open Scope tx_scope.

Definition emit (e : event) : M unit := fun w => (tt, w, [e]).
Definition get : M World := fun w => (w, w, []).
Definition modify (f : World -> World) : M unit := fun w => (tt, f w, []).

Definition result_of {A} (r : A * World * list event) : A := fst (fst r).
Definition world_of {A} (r : A * World * list event) : World := snd (fst r).
Definition trace_of {A} (r : A * World * list event) : list event := snd r.

Fixpoint forEach {A} (l : list A) (body : A -> M unit) : M unit :=
  match l with
  | [] => ret tt
  | x :: r => body x ;; forEach r body
  end.

Definition when (b : bool) (m : M unit) : M unit := if b then m else ret tt.

(** Replaces the object a pointer refers to. *)
Fixpoint store (p : ItemPtr) (f : ICMPPingItem.t -> ICMPPingItem.t)
    (l : list ICMPPingItem.t) : list ICMPPingItem.t :=
  match l, p with
  | [], _ => []
  | x :: r, O => f x :: r
  | x :: r, S q => x :: store q f r
  end.

Definition set_sequenceId (s : Z) (w : World) : World :=
  mkWorld s (this w) (engine w) (items w) (sends w).
Definition set_this (f : ICMPPingTransmitter.t -> ICMPPingTransmitter.t) (w : World) : World :=
  mkWorld (m_sequenceId w) (f (this w)) (engine w) (items w) (sends w).
Definition set_engine (f : ICMPPingEngine.t -> ICMPPingEngine.t) (w : World) : World :=
  mkWorld (m_sequenceId w) (this w) (f (engine w)) (items w) (sends w).
Definition set_items (f : list ICMPPingItem.t -> list ICMPPingItem.t) (w : World) : World :=
  mkWorld (m_sequenceId w) (this w) (engine w) (f (items w)) (sends w).
Definition set_sends (n : nat) (w : World) : World :=
  mkWorld (m_sequenceId w) (this w) (engine w) (items w) n.

(** ** [ICMPPingTransmitter::doWork] *)

Section DoWork.

Variable env : Environment.

(** [new Nedrysoft::ICMPPingEngine::ICMPPingItem()] *)
Definition newPingItem : M ItemPtr :=
  fun w =>
    let p := length (items w) in
    (p, set_items (fun l => l ++ [ICMPPingItem.new]) w, [EvNew p]).

(** A call of a setter through the pointer. *)
Definition through (p : ItemPtr) (f : ICMPPingItem.t -> ICMPPingItem.t) : M unit :=
  modify (set_items (store p f)).

Definition lock (m : Mutex) : M unit := emit (EvLock m).
Definition unlock (m : Mutex) : M unit := emit (EvUnlock m).

(** [m_sequenceId++] on a [uint16_t]: the old value is the result. *)
Definition postIncrement_sequenceId : M Z :=
  fun w =>
    let current := m_sequenceId w in
    (current, set_sequenceId (to_uint16 (current + 1)) w, [EvSequence current]).

(** [m_engine->addRequest(pingItem)] *)
Definition addRequest (p : ItemPtr) : M unit :=
  fun w => (tt, set_engine (ICMPPingEngine.addRequest p) w, [EvAddRequest p]).

(** [m_engine->setEpoch(...)] *)
Definition setEpoch (now : QDateTime) : M unit :=
  fun w => (tt, set_engine (ICMPPingEngine.setEpoch now) w, [EvSetEpoch now]).

(** [ICMPPacket::pingPacket(id, sequence, size, address, m_engine->version())] *)
Definition buildPingPacket (id sequenceId size : Z) (to : QHostAddress) : M QByteArray :=
  fun w =>
    let v := ICMPPingEngine.version (engine w) in
    (pingPacket env id sequenceId size to v, w, [EvPingPacket id sequenceId size to v]).

(** [socket->sendto(buffer, target->hostAddress())] *)
Definition socket_sendto (target : ICMPPingTarget.t) (buffer : QByteArray) : M Z :=
  fun w =>
    let result :=
      sendto env (sends w) (ICMPPingTarget.socket target) buffer
        (ICMPPingTarget.hostAddress target) in
    (result, set_sends (S (sends w)) w, [EvSendTo target buffer result]).

(** [pingItem->startTimer()] *)
Definition startTimer (p : ItemPtr) : M unit :=
  fun w => (tt, set_items (store p ICMPPingItem.startTimer) w, [EvStartTimer p]).

Definition SPDLOG_TRACE (about : QHostAddress) : M unit := emit (EvTrace about).
Definition SPDLOG_ERROR (about : QHostAddress) : M unit := emit (EvError about).

(** [QThread::msleep(unsigned long)] *)
Definition msleep (ms : Z) : M unit := emit (EvSleep (to_ulong (dataModel env) ms)).

(** The body of [for (auto target : m_targets)]. *)
Definition probe (sampleNumber : Z) (target : ICMPPingTarget.t) : M unit :=
  pingItem <- newPingItem ;;
  lock SequenceMutex ;;
  currentSequenceId <- postIncrement_sequenceId ;;
  unlock SequenceMutex ;;
  through pingItem (ICMPPingItem.setTarget target) ;;
  through pingItem (ICMPPingItem.setId (ICMPPingTarget.id target)) ;;
  through pingItem (ICMPPingItem.setSequenceId currentSequenceId) ;;
  through pingItem (ICMPPingItem.setSampleNumber sampleNumber) ;;
  addRequest pingItem ;;
  buffer <- buildPingPacket (ICMPPingTarget.id target) currentSequenceId 52
              (ICMPPingTarget.hostAddress target) ;;
  result <- socket_sendto target buffer ;;
  startTimer pingItem ;;
  SPDLOG_TRACE (ICMPPingTarget.hostAddress target) ;;
  when (negb (result =? Z.of_nat (length buffer)))
       (SPDLOG_ERROR (ICMPPingTarget.hostAddress target)).

(** The body of [while (m_isRunning)]; the result is [sampleNumber] after
    [sampleNumber++]. *)
Definition iteration (round : nat) (sampleNumber : Z) : M Z :=
  w <- get ;;
  match ICMPPingTransmitter.m_targets (this w) with
  | [] => ret tt
  | t :: r => SPDLOG_TRACE (ICMPPingTarget.hostAddress (last r t))
  end ;;
  emit EvRestart ;;
  lock TargetsMutex ;;
  w <- get ;;
  forEach (ICMPPingTransmitter.m_targets (this w)) (probe sampleNumber) ;;
  unlock TargetsMutex ;;
  let elapsedTime := elapsed env round in
  emit (EvElapsed elapsedTime) ;;
  w <- get ;;
  when (elapsedTime <? ICMPPingTransmitter.m_interval (this w))
       (msleep (ICMPPingTransmitter.m_interval (this w) - elapsedTime)) ;;
  ret (to_ulong (dataModel env) (sampleNumber + 1)).

(** What the other threads do to the transmitter between two tests of
    [m_isRunning]: the transmitter itself never clears the flag. *)
Definition otherThreads (round : nat) : M unit :=
  modify (set_this (fun t =>
    if stopRequested env round then ICMPPingTransmitter.set_isRunning false t else t)).

(** [while (m_isRunning) { ... }], at most [fuel] iterations of it. *)
Fixpoint while_isRunning (fuel round : nat) (sampleNumber : Z) : M unit :=
  match fuel with
  | O => ret tt
  | S fuel' =>
      w <- get ;;
      if ICMPPingTransmitter.m_isRunning (this w) then
        sampleNumber' <- iteration round sampleNumber ;;
        otherThreads round ;;
        while_isRunning fuel' (S round) sampleNumber'
      else ret tt
  end.

Definition doWork (fuel : nat) : M unit :=
  let sampleNumber := 0 in
  modify (set_this (ICMPPingTransmitter.set_isRunning true)) ;;
  setEpoch (currentDateTime env) ;;
  while_isRunning fuel 0 sampleNumber.

End DoWork.
(** ** [doWork] in closed form

    What a probe, a round and the whole loop leave in the world and in the
    trace, written as plain functions on the world. *)

Section ClosedForms.

Variable env : Environment.

(** The item a probe leaves behind. *)
Definition probed_item (sampleNumber sequenceId : Z) (target : ICMPPingTarget.t)
  : ICMPPingItem.t :=
  ICMPPingItem.mk (Some target) (ICMPPingTarget.id target) sequenceId sampleNumber true.

Definition probe_buffer (w : World) (target : ICMPPingTarget.t) : QByteArray :=
  pingPacket env (ICMPPingTarget.id target) (m_sequenceId w) 52
    (ICMPPingTarget.hostAddress target) (ICMPPingEngine.version (engine w)).

Definition probe_result (w : World) (target : ICMPPingTarget.t) : Z :=
  sendto env (sends w) (ICMPPingTarget.socket target) (probe_buffer w target)
    (ICMPPingTarget.hostAddress target).

(** A send has failed when the socket reports another number of bytes than
    the packet has. *)
Definition send_failed (buffer : QByteArray) (result : Z) : bool :=
  negb (result =? Z.of_nat (length buffer)).

Definition probe_world (sampleNumber : Z) (w : World) (target : ICMPPingTarget.t) : World :=
  mkWorld (to_uint16 (m_sequenceId w + 1)) (this w)
    (ICMPPingEngine.addRequest (length (items w)) (engine w))
    (items w ++ [probed_item sampleNumber (m_sequenceId w) target])
    (S (sends w)).

Definition probe_trace (w : World) (target : ICMPPingTarget.t) : list event :=
  let p := length (items w) in
  let a := ICMPPingTarget.hostAddress target in
  [ EvNew p;
    EvLock SequenceMutex; EvSequence (m_sequenceId w); EvUnlock SequenceMutex;
    EvAddRequest p;
    EvPingPacket (ICMPPingTarget.id target) (m_sequenceId w) 52 a
      (ICMPPingEngine.version (engine w));
    EvSendTo target (probe_buffer w target) (probe_result w target);
    EvStartTimer p;
    EvTrace a ]
  ++ (if send_failed (probe_buffer w target) (probe_result w target)
      then [EvError a] else []).

(** The world and the trace after the probes of a whole list of targets. *)
Fixpoint round_world (sampleNumber : Z) (w : World) (ts : list ICMPPingTarget.t) : World :=
  match ts with
  | [] => w
  | t :: r => round_world sampleNumber (probe_world sampleNumber w t) r
  end.

Fixpoint round_trace (sampleNumber : Z) (w : World) (ts : list ICMPPingTarget.t) : list event :=
  match ts with
  | [] => []
  | t :: r => probe_trace w t ++ round_trace sampleNumber (probe_world sampleNumber w t) r
  end.

Fixpoint round_items (sampleNumber sequenceId : Z) (ts : list ICMPPingTarget.t)
  : list ICMPPingItem.t :=
  match ts with
  | [] => []
  | t :: r =>
      probed_item sampleNumber sequenceId t
      :: round_items sampleNumber (to_uint16 (sequenceId + 1)) r
  end.

Definition announce_trace (ts : list ICMPPingTarget.t) : list event :=
  match ts with
  | [] => []
  | t :: r => [EvTrace (ICMPPingTarget.hostAddress (last r t))]
  end.

Definition sleep_trace (interval elapsedTime : Z) : list event :=
  if elapsedTime <? interval
  then [EvSleep (to_ulong (dataModel env) (interval - elapsedTime))]
  else [].

Definition iteration_trace (round : nat) (sampleNumber : Z) (w : World) : list event :=
  let ts := ICMPPingTransmitter.m_targets (this w) in
  announce_trace ts
  ++ [EvRestart; EvLock TargetsMutex]
  ++ round_trace sampleNumber w ts
  ++ [EvUnlock TargetsMutex; EvElapsed (elapsed env round)]
  ++ sleep_trace (ICMPPingTransmitter.m_interval (this w)) (elapsed env round).

(** The world at the next test of [m_isRunning]. *)
Definition next_world (round : nat) (sampleNumber : Z) (w : World) : World :=
  set_this
    (fun t => if stopRequested env round
              then ICMPPingTransmitter.set_isRunning false t else t)
    (round_world sampleNumber w (ICMPPingTransmitter.m_targets (this w))).

Fixpoint loop_world (fuel round : nat) (sampleNumber : Z) (w : World) : World :=
  match fuel with
  | O => w
  | S fuel' =>
      if ICMPPingTransmitter.m_isRunning (this w)
      then loop_world fuel' (S round) (to_ulong (dataModel env) (sampleNumber + 1))
             (next_world round sampleNumber w)
      else w
  end.

Fixpoint loop_trace (fuel round : nat) (sampleNumber : Z) (w : World) : list event :=
  match fuel with
  | O => []
  | S fuel' =>
      if ICMPPingTransmitter.m_isRunning (this w)
      then iteration_trace round sampleNumber w
           ++ loop_trace fuel' (S round) (to_ulong (dataModel env) (sampleNumber + 1))
                (next_world round sampleNumber w)
      else []
  end.

(** The world in which the loop starts. *)
Definition start_world (w : World) : World :=
  set_engine (ICMPPingEngine.setEpoch (currentDateTime env))
    (set_this (ICMPPingTransmitter.set_isRunning true) w).

End ClosedForms.
(** ** Reading a trace *)

(** The arguments of the [msleep] calls of a trace, and their sum. *)
Definition sleeps (t : list event) : list Z :=
  flat_map (fun e => match e with EvSleep ms => [ms] | _ => [] end) t.

Definition slept (t : list event) : Z := fold_right Z.add 0 (sleeps t).

(** The [sendto] calls of a trace: target, packet and result. *)
Definition sent (t : list event) : list (ICMPPingTarget.t * QByteArray * Z) :=
  flat_map (fun e => match e with EvSendTo x b r => [(x, b, r)] | _ => [] end) t.

Definition sent_targets (t : list event) : list ICMPPingTarget.t :=
  map (fun c => fst (fst c)) (sent t).

(** The targets of the sends that failed. *)
Definition failed_targets (t : list event) : list ICMPPingTarget.t :=
  map (fun c => fst (fst c))
      (filter (fun c => send_failed (snd (fst c)) (snd c)) (sent t)).

(** The addresses of the error lines logged. *)
Definition errors (t : list event) : list QHostAddress :=
  flat_map (fun e => match e with EvError a => [a] | _ => [] end) t.

(** The times [setEpoch] was called with. *)
Definition epochs (t : list event) : list QDateTime :=
  flat_map (fun e => match e with EvSetEpoch now => [now] | _ => [] end) t.

(** The steps the transmitter takes for one target. *)
Inductive step := Allocate | Build | Send | Stamp | Register.

Definition step_of (e : event) : list step :=
  match e with
  | EvSequence _ => [Allocate]
  | EvPingPacket _ _ _ _ _ => [Build]
  | EvSendTo _ _ _ => [Send]
  | EvStartTimer _ => [Stamp]
  | EvAddRequest _ => [Register]
  | _ => []
  end.

Definition steps (t : list event) : list step := flat_map step_of t.

(** The order in which [doWork] takes the steps. *)
Definition code_order : list step := [Allocate; Register; Build; Send; Stamp].

(** ** Notions the statements about [doWork] use *)

(** The values of the C++ type [uint16_t]. *)
Definition is_uint16 (x : Z) : Prop := 0 <= x < 65536.

(** No other thread asks the loop to stop in the [n] rounds from round [r]
    on. *)
Definition uninterrupted (env : Environment) (r n : nat) : Prop :=
  forall k, (r <= k < r + n)%nat -> stopRequested env k = false.

(** The requests in flight: the items registered with the engine and not
    retired. *)
Definition in_flight (w : World) : list ItemPtr :=
  ICMPPingEngine.m_pingRequests (engine w).

(** No two requests in flight have the same (identifier, sequence) pair. *)
Definition in_flight_keys_differ (w : World) : Prop :=
  forall i j p q a b,
    i <> j ->
    nth_error (in_flight w) i = Some p ->
    nth_error (in_flight w) j = Some q ->
    nth_error (items w) p = Some a ->
    nth_error (items w) q = Some b ->
    ICMPPingItem.key a <> ICMPPingItem.key b.

(** The order of the steps in which registration comes last, after the
    send. *)
Definition register_last_order : list step := [Allocate; Build; Send; Stamp; Register].

(** *** A concrete transmitter

    One target on a 32-bit-[long] platform; every send succeeds, a round
    takes 5 ms, nobody stops the loop. *)
Definition example_target : ICMPPingTarget.t :=
  ICMPPingTarget.mk 7 "192.0.2.1"%string (ICMPSocket.mk 3 64).

Definition example_env : Environment :=
  mkEnvironment LLP64 1000 (fun _ => 5)
    (fun _ _ size _ _ => repeat 0 (Z.to_nat size))
    (fun _ _ buffer _ => Z.of_nat (length buffer))
    (fun _ => false).

Definition example_transmitter : ICMPPingTransmitter.t :=
  ICMPPingTransmitter.addTarget example_target ICMPPingTransmitter.new.

Definition example_world : World := initial_World example_transmitter V4.

(** The world in which the sequence counter holds its largest value. *)
Definition world_at_maximum : World :=
  set_sequenceId UINT16_MAX example_world.

(** *** The timer against the clock

    A timed trace gives every event the time, in milliseconds, at which it
    happens.  [QElapsedTimer::restart()] remembers the time of the call and
    [QElapsedTimer::elapsed()] reports the time that has passed since:
    [timer_agrees started tt] says that every value an [elapsed()] of the
    timed trace [tt] reports is this one, [started] being the time of the
    last [restart()] before the trace, if there was one. *)
Fixpoint timer_agrees (started : option Z) (tt : list (event * Z)) : bool :=
  match tt with
  | [] => true
  | (EvRestart, now) :: r => timer_agrees (Some now) r
  | (EvElapsed ms, now) :: r =>
      match started with
      | Some s => (ms =? now - s) && timer_agrees started r
      | None => false
      end
  | _ :: r => timer_agrees started r
  end.

(** Time does not run backwards: no time of the list is before an earlier
    one. *)
Fixpoint nondecreasing (times : list Z) : bool :=
  match times with
  | [] => true
  | a :: r => forallb (fun b => a <=? b) r && nondecreasing r
  end.

Definition is_timer_event (e : event) : bool :=
  match e with
  | EvRestart | EvElapsed _ => true
  | _ => false
  end.

Definition is_send (e : event) : bool :=
  match e with
  | EvSendTo _ _ _ => true
  | _ => false
  end.

(** The times of the [restart()] calls, of the [elapsed()] calls and of the
    sends of a timed trace. *)
Definition restart_times (tt : list (event * Z)) : list Z :=
  flat_map (fun c => match fst c with EvRestart => [snd c] | _ => [] end) tt.

Definition elapsed_times (tt : list (event * Z)) : list Z :=
  flat_map (fun c => match fst c with EvElapsed _ => [snd c] | _ => [] end) tt.

Definition send_times (tt : list (event * Z)) : list Z :=
  flat_map (fun c => if is_send (fst c) then [snd c] else []) tt.

(** The first round of the concrete transmitter on the clock: the timer is
    restarted at 100, the packet is sent at 103, and [elapsed()] is called at
    105. *)
Definition example_timed_round : list (event * Z) :=
  combine (trace_of (iteration example_env 0 0 example_world))
    [99; 100; 100; 101; 101; 101; 101; 102; 102; 103; 104; 104; 105; 105; 105].

(** An environment in which every send fails and nobody stops the loop. *)
Definition failing_env : Environment :=
  mkEnvironment LP64 1000 (fun _ => 5)
    (fun _ _ size _ _ => repeat 0 (Z.to_nat size))
    (fun _ _ _ _ => -1)
    (fun _ => false).

(** * The critical sections under an arbitrary schedule

    Several threads work on several transmitters.  All transmitters share
    the static [m_sequenceId] and [m_sequenceMutex]; every transmitter has
    its own [m_targets] and [m_targetsMutex].  A thread is a list of calls,
    each either one round of [doWork] or one [addTarget], and it takes one
    instruction-level step whenever the schedule names it.  A thread that
    wants a mutex another thread holds does not move.  The steps are the
    ones between [m_targetsMutex.lock()] and [m_targetsMutex.unlock()] in
    [doWork] and the body of [addTarget]; the look at [m_targets] for the
    trace line at the head of the loop, which [doWork] takes without the
    mutex, is not a step. *)

Module Interleaving.

Inductive call :=
| DoRound
| AddTarget (x : ICMPPingTarget.t).

(** Where a thread is.  In a round: [i] is the position in [m_targets], [x]
    the target the loop variable holds, [v] the value read from
    [m_sequenceId]. *)
Inductive pc :=
| Idle
| RoundLock
| ForTarget (i : nat)
| SeqLock (i : nat) (x : ICMPPingTarget.t)
| SeqRead (i : nat) (x : ICMPPingTarget.t)
| SeqWrite (i : nat) (x : ICMPPingTarget.t) (v : Z)
| SeqUnlock (i : nat) (x : ICMPPingTarget.t) (v : Z)
| Probe (i : nat) (x : ICMPPingTarget.t) (v : Z)
| RoundUnlock
| AddLock (x : ICMPPingTarget.t)
| AddAppend (x : ICMPPingTarget.t)
| AddUnlock.

(** A thread: the transmitter it works on, where it is, and the calls it
    still has to make. *)
Record thread := mkThread { tx : nat; at_pc : pc; calls : list call }.

(** A sequence number handed out: for which transmitter's item, with which
    identifier. *)
Record allocation := mkAllocation { engine_of : nat; identifier : Z; sequence : Z }.

(** [allocations] lists the sequence numbers handed out, oldest first;
    [requests] lists, per engine, the keys registered with [addRequest]. *)
Record state := mkState {
  m_sequenceId : Z;
  m_sequenceMutex : option nat;
  m_targets : nat -> list ICMPPingTarget.t;
  m_targetsMutex : nat -> option nat;
  threads : nat -> thread;
  requests : nat -> list (Z * Z);
  allocations : list allocation
}.

Definition upd {A} (f : nat -> A) (k : nat) (v : A) : nat -> A :=
  fun k' => if Nat.eqb k' k then v else f k'.

Arguments upd : simpl never.

Definition goto (t : nat) (p : pc) (s : state) : state :=
  mkState (m_sequenceId s) (m_sequenceMutex s) (m_targets s) (m_targetsMutex s)
    (upd (threads s) t (mkThread (tx (threads s t)) p (calls (threads s t))))
    (requests s) (allocations s).

Definition next_call (t : nat) (p : pc) (rest : list call) (s : state) : state :=
  mkState (m_sequenceId s) (m_sequenceMutex s) (m_targets s) (m_targetsMutex s)
    (upd (threads s) t (mkThread (tx (threads s t)) p rest))
    (requests s) (allocations s).

Definition set_sequenceMutex (o : option nat) (s : state) : state :=
  mkState (m_sequenceId s) o (m_targets s) (m_targetsMutex s)
    (threads s) (requests s) (allocations s).

Definition set_targetsMutex (e : nat) (o : option nat) (s : state) : state :=
  mkState (m_sequenceId s) (m_sequenceMutex s) (m_targets s)
    (upd (m_targetsMutex s) e o) (threads s) (requests s) (allocations s).

(** The write half of [m_sequenceId++]: the thread has read [v]. *)
Definition write_sequenceId (e : nat) (x : ICMPPingTarget.t) (v : Z) (s : state) : state :=
  mkState (to_uint16 (v + 1)) (m_sequenceMutex s) (m_targets s) (m_targetsMutex s)
    (threads s) (requests s)
    (allocations s ++ [mkAllocation e (ICMPPingTarget.id x) v]).

(** [m_engine->addRequest(pingItem)] and the send. *)
Definition add_request (e : nat) (x : ICMPPingTarget.t) (v : Z) (s : state) : state :=
  mkState (m_sequenceId s) (m_sequenceMutex s) (m_targets s) (m_targetsMutex s)
    (threads s) (upd (requests s) e (requests s e ++ [(ICMPPingTarget.id x, v)]))
    (allocations s).

(** [m_targets.append(target)] *)
Definition append_target (e : nat) (x : ICMPPingTarget.t) (s : state) : state :=
  mkState (m_sequenceId s) (m_sequenceMutex s)
    (upd (m_targets s) e (m_targets s e ++ [x])) (m_targetsMutex s)
    (threads s) (requests s) (allocations s).

(** One step of thread [t]. *)
Definition step (t : nat) (s : state) : state :=
  let e := tx (threads s t) in
  match at_pc (threads s t) with
  | Idle =>
      match calls (threads s t) with
      | [] => s
      | DoRound :: rest => next_call t RoundLock rest s
      | AddTarget x :: rest => next_call t (AddLock x) rest s
      end
  | RoundLock =>
      match m_targetsMutex s e with
      | None => goto t (ForTarget 0) (set_targetsMutex e (Some t) s)
      | Some _ => s
      end
  | ForTarget i =>
      match nth_error (m_targets s e) i with
      | Some x => goto t (SeqLock i x) s
      | None => goto t RoundUnlock s
      end
  | SeqLock i x =>
      match m_sequenceMutex s with
      | None => goto t (SeqRead i x) (set_sequenceMutex (Some t) s)
      | Some _ => s
      end
  | SeqRead i x => goto t (SeqWrite i x (m_sequenceId s)) s
  | SeqWrite i x v => goto t (SeqUnlock i x v) (write_sequenceId e x v s)
  | SeqUnlock i x v => goto t (Probe i x v) (set_sequenceMutex None s)
  | Probe i x v => goto t (ForTarget (S i)) (add_request e x v s)
  | RoundUnlock => goto t Idle (set_targetsMutex e None s)
  | AddLock x =>
      match m_targetsMutex s e with
      | None => goto t (AddAppend x) (set_targetsMutex e (Some t) s)
      | Some _ => s
      end
  | AddAppend x => goto t AddUnlock (append_target e x s)
  | AddUnlock => goto t Idle (set_targetsMutex e None s)
  end.

(** The threads take steps in the order of the schedule. *)
Definition run (schedule : list nat) (s : state) : state :=
  fold_left (fun s t => step t s) schedule s.

(** Where a thread is inside the iteration over the targets of a round. *)
Definition in_round (p : pc) : bool :=
  match p with
  | ForTarget _ | SeqLock _ _ | SeqRead _ _ | SeqWrite _ _ _
  | SeqUnlock _ _ _ | Probe _ _ _ | RoundUnlock => true
  | _ => false
  end.

(** Where a thread is between taking and releasing [m_targetsMutex]. *)
Definition holds_targetsMutex (p : pc) : bool :=
  match p with
  | AddAppend _ | AddUnlock => true
  | _ => in_round p
  end.

(** Where a thread is between taking and releasing [m_sequenceMutex]. *)
Definition holds_sequenceMutex (p : pc) : bool :=
  match p with
  | SeqRead _ _ | SeqWrite _ _ _ | SeqUnlock _ _ _ => true
  | _ => false
  end.

(** A state in which no thread has started: nothing is locked and no
    sequence number has been handed out. *)
Definition initial (s : state) : Prop :=
  m_sequenceMutex s = None
  /\ (forall e, m_targetsMutex s e = None)
  /\ (forall t, at_pc (threads s t) = Idle)
  /\ allocations s = []
  /\ is_uint16 (m_sequenceId s).

(** What holds of every state the threads can reach from an initial state
    whose counter was [q0]. *)
Record invariant (q0 : Z) (s : state) : Prop := mkInvariant {
  inv_targetsMutex : forall t,
    holds_targetsMutex (at_pc (threads s t)) = true ->
    m_targetsMutex s (tx (threads s t)) = Some t;
  inv_sequenceMutex : forall t,
    holds_sequenceMutex (at_pc (threads s t)) = true ->
    m_sequenceMutex s = Some t;
  inv_read : forall t i x v,
    at_pc (threads s t) = SeqWrite i x v -> v = m_sequenceId s;
  inv_counter :
    m_sequenceId s = to_uint16 (q0 + Z.of_nat (length (allocations s)));
  inv_allocations : forall n a,
    nth_error (allocations s) n = Some a ->
    sequence a = to_uint16 (q0 + Z.of_nat n)
}.

(** *** A concrete schedule

    Thread 0 and thread 1 run rounds on two transmitters, thread 2 adds a
    target to the first. *)
Definition second_target : ICMPPingTarget.t :=
  ICMPPingTarget.mk 9 "192.0.2.2"%string (ICMPSocket.mk 4 64).

Definition example_state : state :=
  mkState initial_sequenceId None
    (fun _ => [example_target]) (fun _ => None)
    (fun t => match t with
              | 0%nat => mkThread 0 Idle [DoRound; DoRound]
              | 1%nat => mkThread 1 Idle [DoRound]
              | 2%nat => mkThread 0 Idle [AddTarget second_target]
              | _ => mkThread 0 Idle []
              end)
    (fun _ => []) [].

Definition example_schedule : list nat :=
  [0; 1; 2; 0; 1; 2; 0; 1; 0; 1; 1; 0; 0; 1; 1; 0; 0; 1; 0; 1; 0; 2; 1;
   2; 2; 2; 0; 0; 0; 0; 0; 0; 0; 0; 0; 0; 0; 0; 0; 0; 0; 0; 0]%nat.

End Interleaving.

(** * Further notions for [doWork] *)

(** The items a trace creates, registers and stamps, and the keys and
    payload sizes of the packets it builds. *)
Definition created (t : list event) : list ItemPtr :=
  flat_map (fun e => match e with EvNew p => [p] | _ => [] end) t.

Definition registered (t : list event) : list ItemPtr :=
  flat_map (fun e => match e with EvAddRequest p => [p] | _ => [] end) t.

Definition stamped (t : list event) : list ItemPtr :=
  flat_map (fun e => match e with EvStartTimer p => [p] | _ => [] end) t.

Definition packet_keys (t : list event) : list (Z * Z) :=
  flat_map (fun e => match e with
                     | EvPingPacket id sequenceId _ _ _ => [(id, sequenceId)]
                     | _ => []
                     end) t.

Definition packet_sizes (t : list event) : list Z :=
  flat_map (fun e => match e with
                     | EvPingPacket _ _ size _ _ => [size]
                     | _ => []
                     end) t.

(** The buffers the packet builder returns for the packets of a trace. *)
Definition built (env : Environment) (t : list event) : list QByteArray :=
  flat_map (fun e => match e with
                     | EvPingPacket id sequenceId size to v =>
                         [pingPacket env id sequenceId size to v]
                     | _ => []
                     end) t.

Definition sent_buffers (t : list event) : list QByteArray :=
  map (fun c => snd (fst c)) (sent t).

(** *** The locking discipline

    [allowed held e] is the list of mutexes held after the event [e] when
    [held] were held before it, most recent first, or [None] when the event
    breaks one of these rules: a mutex that is held is not locked again
    ([QMutex] is not recursive); the mutex unlocked is the one taken last;
    [m_sequenceId] is touched only under [m_sequenceMutex]; a packet is sent
    under [m_targetsMutex] and not under [m_sequenceMutex]; the thread sleeps
    with no mutex held. *)
Definition Mutex_eqb (a b : Mutex) : bool :=
  match a, b with
  | SequenceMutex, SequenceMutex | TargetsMutex, TargetsMutex => true
  | _, _ => false
  end.

Definition holds (m : Mutex) (held : list Mutex) : bool :=
  existsb (Mutex_eqb m) held.

Definition allowed (held : list Mutex) (e : event) : option (list Mutex) :=
  match e with
  | EvLock m => if holds m held then None else Some (m :: held)
  | EvUnlock m =>
      match held with
      | h :: r => if Mutex_eqb m h then Some r else None
      | [] => None
      end
  | EvSequence _ => if holds SequenceMutex held then Some held else None
  | EvSendTo _ _ _ =>
      if holds TargetsMutex held && negb (holds SequenceMutex held)
      then Some held else None
  | EvSleep _ => match held with [] => Some held | _ :: _ => None end
  | _ => Some held
  end.

Fixpoint discipline (held : list Mutex) (t : list event) : option (list Mutex) :=
  match t with
  | [] => Some held
  | e :: r =>
      match allowed held e with
      | Some held' => discipline held' r
      | None => None
      end
  end.

(** [addTarget] for each target of a list, in order. *)
Definition addTargets (xs : list ICMPPingTarget.t) (tx : ICMPPingTransmitter.t)
  : ICMPPingTransmitter.t :=
  fold_left (fun tx x => ICMPPingTransmitter.addTarget x tx) xs tx.

(** *** A second concrete environment

    The second send of the run fails, and the loop is asked to stop in the
    round numbered 1. *)
Definition faulty_env : Environment :=
  mkEnvironment LP64 1000 (fun _ => 5)
    (fun _ _ size _ _ => repeat 0 (Z.to_nat size))
    (fun n _ buffer _ => if Nat.eqb n 1 then -1 else Z.of_nat (length buffer))
    (fun k => Nat.eqb k 1).

(** * [JitterPlotFactory]

    [src/components/JitterPlot/JitterPlotFactory.cpp].  The plots live in a
    store of objects; a pointer is the index of the object in the store, and
    the place of a deleted object stays behind, empty. *)
Module JitterPlotFactory.

Record QMargins := mkMargins { left : Z; top : Z; right : Z; bottom : Z }.

(** Modelled from the spec: [JitterPlot.h] is not part of the sources; a
    plot is what its constructor was given. *)
Record JitterPlot := mkPlot { margins : QMargins }.

Definition PlotPtr := nat.
Definition Store := list (option JitterPlot).

(** [new JitterPlot(margins)] *)
Definition new_JitterPlot (m : QMargins) (h : Store) : PlotPtr * Store :=
  (length h, h ++ [Some (mkPlot m)]).

Fixpoint clear (p : PlotPtr) (h : Store) : Store :=
  match h, p with
  | [], _ => []
  | _ :: r, O => None :: r
  | x :: r, S q => x :: clear q r
  end.

(** [delete p]: an error unless [p] points to a live object. *)
Definition delete (p : PlotPtr) (h : Store) : option Store :=
  match nth_error h p with
  | Some (Some _) => Some (clear p h)
  | _ => None
  end.

(** [qDeleteAll(list)]: [delete] on every element, first to last. *)
Fixpoint qDeleteAll (ps : list PlotPtr) (h : Store) : option Store :=
  match ps with
  | [] => Some h
  | p :: r =>
      match delete p h with
      | Some h' => qDeleteAll r h'
      | None => None
      end
  end.

Record t := mk { m_plots : list PlotPtr }.

(** The constructor. *)
Definition new : t := mk [].

(** The destructor. *)
Definition destroy (this : t) (h : Store) : option Store :=
  qDeleteAll (m_plots this) h.

Definition createPlot (m : QMargins) (this : t) (h : Store) : PlotPtr * t * Store :=
  let '(newPlot, h') := new_JitterPlot m h in
  (newPlot, mk (m_plots this ++ [newPlot]), h').

(** [createPlot] for each of a list of margins, in order: the pointers
    returned, the factory and the store afterwards. *)
Fixpoint createPlots (ms : list QMargins) (this : t) (h : Store)
  : list PlotPtr * t * Store :=
  match ms with
  | [] => ([], this, h)
  | m :: r =>
      let '(p, this', h') := createPlot m this h in
      let '(ps, this'', h'') := createPlots r this' h' in
      (p :: ps, this'', h'')
  end.

(** The plot a pointer refers to, if it is live. *)
Definition plot_at (h : Store) (p : PlotPtr) : option JitterPlot :=
  match nth_error h p with
  | Some o => o
  | None => None
  end.

(** The factory owns its plots: every pointer in [m_plots] is there once and
    refers to a live plot. *)
Definition owns (this : t) (h : Store) : Prop :=
  NoDup (m_plots this) /\ forall p, In p (m_plots this) -> plot_at h p <> None.

Definition example_margins : list QMargins :=
  [mkMargins 0 0 0 0; mkMargins 4 8 4 8].

End JitterPlotFactory.

(** * More on the interleavings *)

Module Ownership.

Import Interleaving.

(** A mutex that is taken is held by a thread that is between taking and
    releasing it, on the transmitter the mutex belongs to. *)
Record owned (s : state) : Prop := mkOwned {
  own_sequenceMutex : forall h,
    m_sequenceMutex s = Some h ->
    holds_sequenceMutex (at_pc (threads s h)) = true;
  own_targetsMutex : forall e h,
    m_targetsMutex s e = Some h ->
    holds_targetsMutex (at_pc (threads s h)) = true /\ tx (threads s h) = e
}.

(** A thread that has read the counter for an item has had its number
    logged once it has written the counter back, and a key that is
    registered has been logged for that engine. *)
Record logged (s : state) : Prop := mkLogged {
  log_thread : forall t i x v,
    at_pc (threads s t) = SeqUnlock i x v \/ at_pc (threads s t) = Probe i x v ->
    In (mkAllocation (tx (threads s t)) (ICMPPingTarget.id x) v) (allocations s);
  log_requests : forall e k,
    In k (requests s e) ->
    In (mkAllocation e (fst k) (snd k)) (allocations s)
}.

(** A thread that has something left to do. *)
Definition unfinished (th : thread) : Prop :=
  at_pc th <> Idle \/ calls th <> [].

(** Whether the next step of a thread moves it. *)
Definition enabled (t : nat) (s : state) : bool :=
  match at_pc (threads s t) with
  | Idle => match calls (threads s t) with [] => false | _ :: _ => true end
  | RoundLock | AddLock _ =>
      match m_targetsMutex s (tx (threads s t)) with None => true | Some _ => false end
  | SeqLock _ _ =>
      match m_sequenceMutex s with None => true | Some _ => false end
  | _ => true
  end.

End Ownership.
(** * Facts about the closed forms *)

Section ClosedFormFacts.

Variable env : Environment.

Lemma store_last (f : ICMPPingItem.t -> ICMPPingItem.t) l x :
  store (length l) f (l ++ [x]) = l ++ [f x].
Proof.
  induction l as [|y l IH]; simpl; [reflexivity|].
  now rewrite IH.
Qed.

Lemma probe_spec sampleNumber target w :
  probe env sampleNumber target w
  = (tt, probe_world sampleNumber w target, probe_trace env w target).
Proof.
  destruct w as [q tx e l n].
  cbv [probe bind newPingItem lock unlock postIncrement_sequenceId through
       modify emit addRequest buildPingPacket socket_sendto startTimer
       SPDLOG_TRACE SPDLOG_ERROR when ret probe_world probe_trace probe_result
       probe_buffer send_failed set_items set_sequenceId set_engine set_sends
       m_sequenceId this engine items sends].
  rewrite !store_last.
  cbv [ICMPPingItem.setTarget ICMPPingItem.setId ICMPPingItem.setSequenceId
       ICMPPingItem.setSampleNumber ICMPPingItem.startTimer ICMPPingItem.new
       ICMPPingItem.target ICMPPingItem.id ICMPPingItem.sequenceId
       ICMPPingItem.sampleNumber ICMPPingItem.timerStarted probed_item].
  destruct (negb _); reflexivity.
Qed.

Lemma forEach_probe_spec sampleNumber ts w :
  forEach ts (probe env sampleNumber) w
  = (tt, round_world sampleNumber w ts, round_trace env sampleNumber w ts).
Proof.
  revert w; induction ts as [|t r IH]; intro w; [reflexivity|].
  cbn [forEach]. unfold bind at 1. rewrite probe_spec, IH. reflexivity.
Qed.

Lemma round_world_this sampleNumber ts w :
  this (round_world sampleNumber w ts) = this w.
Proof. revert w; induction ts as [|t r IH]; intro w; [reflexivity|]. cbn. now rewrite IH. Qed.

Lemma round_world_items sampleNumber ts w :
  items (round_world sampleNumber w ts)
  = items w ++ round_items sampleNumber (m_sequenceId w) ts.
Proof.
  revert w; induction ts as [|t r IH]; intro w; cbn.
  - now rewrite app_nil_r.
  - rewrite IH. cbn. now rewrite <- app_assoc.
Qed.

Lemma to_uint16_idem x y : to_uint16 (to_uint16 x + y) = to_uint16 (x + y).
Proof. unfold to_uint16, to_unsigned. now rewrite Zplus_mod_idemp_l. Qed.

Lemma to_ulong_idem dm x y : to_ulong dm (to_ulong dm x + y) = to_ulong dm (x + y).
Proof. unfold to_ulong, to_unsigned. now rewrite Zplus_mod_idemp_l. Qed.

Lemma round_world_sequenceId sampleNumber ts w :
  to_uint16 (m_sequenceId (round_world sampleNumber w ts))
  = to_uint16 (m_sequenceId w + Z.of_nat (length ts)).
Proof.
  revert w; induction ts as [|t r IH]; intro w.
  - cbn. now rewrite Z.add_0_r.
  - cbn [round_world length]. rewrite IH. cbn [probe_world m_sequenceId].
    rewrite to_uint16_idem. f_equal. lia.
Qed.

Lemma round_world_epoch sampleNumber ts w :
  ICMPPingEngine.epoch (engine (round_world sampleNumber w ts))
  = ICMPPingEngine.epoch (engine w).
Proof. revert w; induction ts as [|t r IH]; intro w; [reflexivity|]. cbn. now rewrite IH. Qed.

Lemma round_world_requests sampleNumber ts w :
  ICMPPingEngine.m_pingRequests (engine (round_world sampleNumber w ts))
  = ICMPPingEngine.m_pingRequests (engine w) ++ seq (length (items w)) (length ts).
Proof.
  revert w; induction ts as [|t r IH]; intro w; cbn [round_world length seq].
  - now rewrite app_nil_r.
  - rewrite IH. cbn. rewrite <- app_assoc, length_app. cbn.
    now rewrite Nat.add_1_r.
Qed.

Lemma iteration_spec round sampleNumber w :
  iteration env round sampleNumber w
  = (to_ulong (dataModel env) (sampleNumber + 1),
     round_world sampleNumber w (ICMPPingTransmitter.m_targets (this w)),
     iteration_trace env round sampleNumber w).
Proof.
  unfold iteration, iteration_trace.
  set (ts := ICMPPingTransmitter.m_targets (this w)).
  unfold bind at 1. cbn [get]. fold ts.
  unfold bind at 1.
  replace (match ts with
           | [] => ret tt
           | t :: r => SPDLOG_TRACE (ICMPPingTarget.hostAddress (last r t))
           end w)
    with (tt, w, announce_trace ts) by (destruct ts; reflexivity).
  cbv [bind get emit lock unlock msleep].
  rewrite forEach_probe_spec. fold ts. rewrite round_world_this.
  unfold when, sleep_trace, ret.
  destruct (elapsed env round <? _); cbn [app]; rewrite ?app_nil_r; reflexivity.
Qed.

Lemma while_isRunning_spec fuel round sampleNumber w :
  while_isRunning env fuel round sampleNumber w
  = (tt, loop_world env fuel round sampleNumber w, loop_trace env fuel round sampleNumber w).
Proof.
  revert round sampleNumber w.
  induction fuel as [|fuel IH]; intros round sampleNumber w; [reflexivity|].
  cbn [while_isRunning loop_world loop_trace].
  unfold bind at 1. cbn [get].
  destruct (ICMPPingTransmitter.m_isRunning (this w)); [|reflexivity].
  unfold bind, otherThreads, modify. rewrite iteration_spec, IH.
  unfold next_world. reflexivity.
Qed.

Lemma doWork_spec fuel w :
  doWork env fuel w
  = (tt, loop_world env fuel 0 0 (start_world env w),
     EvSetEpoch (currentDateTime env) :: loop_trace env fuel 0 0 (start_world env w)).
Proof.
  unfold doWork, bind, modify, setEpoch. rewrite while_isRunning_spec. reflexivity.
Qed.

End ClosedFormFacts.
Section TraceFacts.

Variable env : Environment.

Lemma probe_trace_sleeps w x : sleeps (probe_trace env w x) = [].
Proof. unfold probe_trace, sleeps. rewrite flat_map_app. cbn. now destruct (send_failed _ _). Qed.

Lemma probe_trace_epochs w x : epochs (probe_trace env w x) = [].
Proof. unfold probe_trace, epochs. rewrite flat_map_app. cbn. now destruct (send_failed _ _). Qed.

Lemma probe_trace_steps w x : steps (probe_trace env w x) = code_order.
Proof. unfold probe_trace, steps. rewrite flat_map_app. cbn. now destruct (send_failed _ _). Qed.

Lemma probe_trace_sent w x :
  sent (probe_trace env w x) = [(x, probe_buffer env w x, probe_result env w x)].
Proof. unfold probe_trace, sent. rewrite flat_map_app. cbn. now destruct (send_failed _ _). Qed.

Lemma probe_trace_errors w x :
  errors (probe_trace env w x)
  = if send_failed (probe_buffer env w x) (probe_result env w x)
    then [ICMPPingTarget.hostAddress x] else [].
Proof. unfold probe_trace, errors. rewrite flat_map_app. cbn. now destruct (send_failed _ _). Qed.

Lemma round_trace_sleeps sampleNumber ts w :
  sleeps (round_trace env sampleNumber w ts) = [].
Proof.
  revert w; induction ts as [|x r IH]; intro w; [reflexivity|].
  cbn [round_trace]. unfold sleeps in *. rewrite flat_map_app.
  fold (sleeps (probe_trace env w x)). now rewrite probe_trace_sleeps, IH.
Qed.

Lemma round_trace_epochs sampleNumber ts w :
  epochs (round_trace env sampleNumber w ts) = [].
Proof.
  revert w; induction ts as [|x r IH]; intro w; [reflexivity|].
  cbn [round_trace]. unfold epochs in *. rewrite flat_map_app.
  fold (epochs (probe_trace env w x)). now rewrite probe_trace_epochs, IH.
Qed.

Lemma round_trace_steps sampleNumber ts w :
  steps (round_trace env sampleNumber w ts) = flat_map (fun _ => code_order) ts.
Proof.
  revert w; induction ts as [|x r IH]; intro w; [reflexivity|].
  cbn [round_trace flat_map]. unfold steps in *. rewrite flat_map_app.
  fold (steps (probe_trace env w x)). now rewrite probe_trace_steps, IH.
Qed.

Lemma round_trace_sent_targets sampleNumber ts w :
  sent_targets (round_trace env sampleNumber w ts) = ts.
Proof.
  revert w; induction ts as [|x r IH]; intro w; [reflexivity|].
  cbn [round_trace]. unfold sent_targets, sent in *. rewrite flat_map_app, map_app.
  fold (sent (probe_trace env w x)). rewrite probe_trace_sent, IH. reflexivity.
Qed.

Lemma round_trace_errors sampleNumber ts w :
  errors (round_trace env sampleNumber w ts)
  = map ICMPPingTarget.hostAddress (failed_targets (round_trace env sampleNumber w ts)).
Proof.
  revert w; induction ts as [|x r IH]; intro w; [reflexivity|].
  cbn [round_trace]. unfold failed_targets, errors, sent in *.
  rewrite !flat_map_app, filter_app, !map_app.
  fold (sent (probe_trace env w x)). fold (errors (probe_trace env w x)).
  rewrite probe_trace_sent, probe_trace_errors, IH. cbn.
  now destruct (send_failed _ _).
Qed.

End TraceFacts.

(** * Facts about the loop *)

Section LoopFacts.

Variable env : Environment.

Lemma loop_world_unfold fuel round sampleNumber w :
  loop_world env (S fuel) round sampleNumber w
  = if ICMPPingTransmitter.m_isRunning (this w)
    then loop_world env fuel (S round)
           (to_ulong (dataModel env) (sampleNumber + 1))
           (next_world env round sampleNumber w)
    else w.
Proof. reflexivity. Qed.

Lemma next_world_this round sampleNumber w :
  stopRequested env round = false ->
  this (next_world env round sampleNumber w) = this w.
Proof.
  intro H. unfold next_world. rewrite H. cbn. apply round_world_this.
Qed.

Lemma next_world_items round sampleNumber w :
  items (next_world env round sampleNumber w)
  = items w
    ++ round_items sampleNumber (m_sequenceId w)
         (ICMPPingTransmitter.m_targets (this w)).
Proof. unfold next_world. cbn. apply round_world_items. Qed.

Lemma next_world_sequenceId round sampleNumber w :
  m_sequenceId (next_world env round sampleNumber w)
  = m_sequenceId (round_world sampleNumber w (ICMPPingTransmitter.m_targets (this w))).
Proof. reflexivity. Qed.

Lemma next_world_engine round sampleNumber w :
  engine (next_world env round sampleNumber w)
  = engine (round_world sampleNumber w (ICMPPingTransmitter.m_targets (this w))).
Proof. reflexivity. Qed.

Lemma uninterrupted_head r n :
  uninterrupted env r (S n) -> stopRequested env r = false.
Proof. intro H. apply H. lia. Qed.

Lemma uninterrupted_tail r n :
  uninterrupted env r (S n) -> uninterrupted env (S r) n.
Proof. intros H k Hk. apply H. lia. Qed.

Lemma uninterrupted_init r n :
  uninterrupted env r (S n) -> uninterrupted env r n.
Proof. intros H k Hk. apply H. lia. Qed.

Lemma loop_world_this n : forall r s w,
  ICMPPingTransmitter.m_isRunning (this w) = true ->
  uninterrupted env r n ->
  this (loop_world env n r s w) = this w.
Proof.
  induction n as [|n IH]; intros r s w Hrun Hun; [reflexivity|].
  rewrite loop_world_unfold, Hrun.
  pose proof (next_world_this r s w (uninterrupted_head _ _ Hun)) as E.
  rewrite IH; [exact E | now rewrite E | now apply uninterrupted_tail].
Qed.

Lemma loop_world_snoc n : forall r s w,
  ICMPPingTransmitter.m_isRunning (this w) = true ->
  uninterrupted env r n ->
  s = to_ulong (dataModel env) s ->
  loop_world env (S n) r s w
  = next_world env (r + n) (to_ulong (dataModel env) (s + Z.of_nat n))
      (loop_world env n r s w).
Proof.
  induction n as [|n IH]; intros r s w Hrun Hun Hs.
  - rewrite loop_world_unfold, Hrun. cbn [loop_world].
    now rewrite Nat.add_0_r, Z.add_0_r, <- Hs.
  - rewrite loop_world_unfold, Hrun.
    pose proof (next_world_this r s w (uninterrupted_head _ _ Hun)) as E.
    rewrite IH.
    + rewrite (loop_world_unfold n r s w), Hrun.
      rewrite to_ulong_idem.
      replace (S r + n)%nat with (r + S n)%nat by lia.
      replace (s + 1 + Z.of_nat n) with (s + Z.of_nat (S n)) by lia.
      reflexivity.
    + now rewrite E.
    + now apply uninterrupted_tail.
    + unfold to_ulong, to_unsigned. now rewrite Z.mod_mod by (destruct (dataModel env); cbn; lia).
Qed.

Lemma to_uint16_range x : is_uint16 (to_uint16 x).
Proof. unfold is_uint16, to_uint16, to_unsigned. apply Z.mod_pos_bound. reflexivity. Qed.

Lemma to_uint16_small x : is_uint16 x -> to_uint16 x = x.
Proof. intro H. unfold to_uint16, to_unsigned. now apply Z.mod_small. Qed.

Lemma round_world_sequenceId_range s ts : forall w,
  is_uint16 (m_sequenceId w) -> is_uint16 (m_sequenceId (round_world s w ts)).
Proof.
  induction ts as [|x r IH]; intros w H; [exact H|].
  cbn [round_world]. apply IH. cbn. apply to_uint16_range.
Qed.

Lemma round_world_sequenceId_eq s ts w :
  is_uint16 (m_sequenceId w) ->
  m_sequenceId (round_world s w ts)
  = to_uint16 (m_sequenceId w + Z.of_nat (length ts)).
Proof.
  intro H. rewrite <- (round_world_sequenceId s ts w).
  symmetry. apply to_uint16_small. now apply round_world_sequenceId_range.
Qed.

Lemma round_items_length s ts : forall q, length (round_items s q ts) = length ts.
Proof. induction ts as [|x r IH]; intro q; cbn; [reflexivity | now rewrite IH]. Qed.

Lemma round_items_sampleNumber s ts : forall q,
  Forall (fun i => ICMPPingItem.sampleNumber i = s) (round_items s q ts).
Proof. induction ts as [|x r IH]; intro q; cbn; constructor; [reflexivity | apply IH]. Qed.

Lemma round_items_nth s ts : forall q j x,
  is_uint16 q ->
  nth_error ts j = Some x ->
  nth_error (round_items s q ts) j
  = Some (probed_item s (to_uint16 (q + Z.of_nat j)) x).
Proof.
  induction ts as [|y r IH]; intros q j x Hq Hj.
  - now destruct j.
  - destruct j as [|j]; cbn in Hj |- *.
    + injection Hj as ->. now rewrite Z.add_0_r, to_uint16_small.
    + rewrite (IH _ _ _ (to_uint16_range _) Hj), to_uint16_idem.
      do 3 f_equal. lia.
Qed.

(** The loop after [n] uninterrupted rounds. *)
Lemma loop_world_sequenceId n : forall r s w,
  ICMPPingTransmitter.m_isRunning (this w) = true ->
  uninterrupted env r n ->
  is_uint16 (m_sequenceId w) ->
  m_sequenceId (loop_world env n r s w)
  = to_uint16 (m_sequenceId w
               + Z.of_nat (n * length (ICMPPingTransmitter.m_targets (this w)))).
Proof.
  induction n as [|n IH]; intros r s w Hrun Hun Hq.
  - cbn. now rewrite Z.add_0_r, to_uint16_small.
  - rewrite loop_world_unfold, Hrun.
    pose proof (next_world_this r s w (uninterrupted_head _ _ Hun)) as E.
    rewrite IH; [| now rewrite E | now apply uninterrupted_tail
                 | rewrite next_world_sequenceId; now apply round_world_sequenceId_range].
    rewrite E, next_world_sequenceId, round_world_sequenceId_eq by exact Hq.
    rewrite to_uint16_idem. f_equal. lia.
Qed.

Lemma loop_world_items_length n : forall r s w,
  ICMPPingTransmitter.m_isRunning (this w) = true ->
  uninterrupted env r n ->
  length (items (loop_world env n r s w))
  = (length (items w) + n * length (ICMPPingTransmitter.m_targets (this w)))%nat.
Proof.
  induction n as [|n IH]; intros r s w Hrun Hun.
  - cbn. lia.
  - rewrite loop_world_unfold, Hrun.
    pose proof (next_world_this r s w (uninterrupted_head _ _ Hun)) as E.
    rewrite IH; [| now rewrite E | now apply uninterrupted_tail].
    rewrite E, next_world_items, length_app, round_items_length. lia.
Qed.

Lemma loop_world_requests n : forall r s w,
  ICMPPingTransmitter.m_isRunning (this w) = true ->
  uninterrupted env r n ->
  in_flight (loop_world env n r s w)
  = in_flight w
    ++ seq (length (items w))
           (n * length (ICMPPingTransmitter.m_targets (this w))).
Proof.
  unfold in_flight.
  induction n as [|n IH]; intros r s w Hrun Hun.
  - cbn. now rewrite app_nil_r.
  - rewrite loop_world_unfold, Hrun.
    pose proof (next_world_this r s w (uninterrupted_head _ _ Hun)) as E.
    rewrite IH; [| now rewrite E | now apply uninterrupted_tail].
    rewrite E, next_world_engine, round_world_requests, next_world_items.
    rewrite length_app, round_items_length, <- app_assoc. f_equal.
    cbn [Nat.mul]. now rewrite seq_app.
Qed.

Lemma loop_world_S_items n r s w :
  ICMPPingTransmitter.m_isRunning (this w) = true ->
  uninterrupted env r n ->
  s = to_ulong (dataModel env) s ->
  items (loop_world env (S n) r s w)
  = items (loop_world env n r s w)
    ++ round_items (to_ulong (dataModel env) (s + Z.of_nat n))
         (m_sequenceId (loop_world env n r s w))
         (ICMPPingTransmitter.m_targets (this w)).
Proof.
  intros Hrun Hun Hs.
  rewrite loop_world_snoc, next_world_items, loop_world_this by assumption.
  reflexivity.
Qed.

Lemma loop_world_items_nth n : forall w k j x,
  ICMPPingTransmitter.m_isRunning (this w) = true ->
  uninterrupted env 0 n ->
  is_uint16 (m_sequenceId w) ->
  (k < n)%nat ->
  nth_error (ICMPPingTransmitter.m_targets (this w)) j = Some x ->
  let L := length (ICMPPingTransmitter.m_targets (this w)) in
  nth_error (items (loop_world env n 0 0 w)) (length (items w) + k * L + j)
  = Some (probed_item (to_ulong (dataModel env) (Z.of_nat k))
            (to_uint16 (m_sequenceId w + Z.of_nat (k * L + j))) x).
Proof.
  induction n as [|n IH]; intros w k j x Hrun Hun Hq Hk Hj L; [lia|].
  assert (Hz : 0 = to_ulong (dataModel env) 0) by (now destruct (dataModel env)).
  rewrite loop_world_S_items by (auto using uninterrupted_init).
  destruct (Nat.eq_dec k n) as [->|Hne].
  - rewrite nth_error_app2 by (rewrite loop_world_items_length by (auto using uninterrupted_init); fold L; lia).
    rewrite loop_world_items_length by (auto using uninterrupted_init). fold L.
    replace (length (items w) + n * L + j - (length (items w) + n * L))%nat with j by lia.
    rewrite loop_world_sequenceId by (auto using uninterrupted_init). fold L.
    rewrite (round_items_nth _ _ _ _ _ (to_uint16_range _) Hj), to_uint16_idem.
    cbn [Z.add]. do 3 f_equal. lia.
  - assert (Hk' : (k < n)%nat) by lia.
    pose proof (IH w k j x Hrun (uninterrupted_init _ _ Hun) Hq Hk' Hj) as E.
    cbv zeta in E. fold L in E.
    rewrite nth_error_app1; [exact E|].
    apply nth_error_Some. now rewrite E.
Qed.

End LoopFacts.

(** * The transmitter's interval *)

(** C8: a freshly constructed transmitter, before any call to
    [setInterval], has a transmit interval of exactly 10000 milliseconds, and
    [interval()] returns 10000 on it. *)
Theorem default_interval :
  ICMPPingTransmitter.m_interval ICMPPingTransmitter.new = 10000
  /\ ICMPPingTransmitter.interval ICMPPingTransmitter.new = 10000.
Proof. split; reflexivity. Qed.

(** C10: for every integer [x], zero and negative values included,
    [setInterval(x)] returns true, and [interval()] afterwards returns
    exactly [x]. *)
Theorem setInterval_then_interval (x : Z) (tx : ICMPPingTransmitter.t) :
  fst (ICMPPingTransmitter.setInterval x tx) = true
  /\ ICMPPingTransmitter.interval (snd (ICMPPingTransmitter.setInterval x tx)) = x.
Proof. split; reflexivity. Qed.

(** * The sequence counter *)

(** C2, as stated, fails: in the world where the counter holds 65535,
    neither the number allocated there, nor the value the counter takes, nor
    the number allocated next is the starting value 1. *)
Lemma sequence_wrap_misses_start :
  let first := postIncrement_sequenceId world_at_maximum in
  let second := postIncrement_sequenceId (world_of first) in
  m_sequenceId world_at_maximum = UINT16_MAX
  /\ result_of first <> initial_sequenceId
  /\ m_sequenceId (world_of first) <> initial_sequenceId
  /\ result_of second <> initial_sequenceId.
Proof. cbv. repeat split; discriminate. Qed.

(** C2, amended: when the counter holds 65535, the allocation returns 65535
    and leaves the counter at 0, and the sequence number allocated next
    is 0. *)
Theorem sequence_wraps_to_zero (w : World) :
  m_sequenceId w = UINT16_MAX ->
  let first := postIncrement_sequenceId w in
  let second := postIncrement_sequenceId (world_of first) in
  result_of first = 65535
  /\ m_sequenceId (world_of first) = 0
  /\ result_of second = 0
  /\ m_sequenceId (world_of second) = 1.
Proof.
  intro H. unfold postIncrement_sequenceId. cbn. rewrite H. repeat split.
Qed.

Lemma sequence_wraps_to_zero_at_maximum :
  let first := postIncrement_sequenceId world_at_maximum in
  let second := postIncrement_sequenceId (world_of first) in
  result_of first = 65535
  /\ m_sequenceId (world_of first) = 0
  /\ result_of second = 0
  /\ m_sequenceId (world_of second) = 1.
Proof. apply (sequence_wraps_to_zero world_at_maximum). reflexivity. Defined.

(** * One round *)

Lemma sleeps_app a b : sleeps (a ++ b) = sleeps a ++ sleeps b.
Proof. apply flat_map_app. Qed.

Lemma sent_targets_app a b : sent_targets (a ++ b) = sent_targets a ++ sent_targets b.
Proof. unfold sent_targets, sent. now rewrite flat_map_app, map_app. Qed.

Lemma steps_app a b : steps (a ++ b) = steps a ++ steps b.
Proof. apply flat_map_app. Qed.

Lemma epochs_app a b : epochs (a ++ b) = epochs a ++ epochs b.
Proof. apply flat_map_app. Qed.

Lemma errors_app a b : errors (a ++ b) = errors a ++ errors b.
Proof. apply flat_map_app. Qed.

Lemma failed_targets_app a b :
  failed_targets (a ++ b) = failed_targets a ++ failed_targets b.
Proof. unfold failed_targets, sent. now rewrite flat_map_app, filter_app, map_app. Qed.

Lemma to_ulong_small dm x : 0 <= x < 2 ^ ulong_bits dm -> to_ulong dm x = x.
Proof. intro H. unfold to_ulong, to_unsigned. now apply Z.mod_small. Qed.

Lemma int_fits_ulong dm x : 0 <= x <= INT_MAX -> 0 <= x < 2 ^ ulong_bits dm.
Proof. unfold INT_MAX. destruct dm; cbn; lia. Qed.

(** The part of an iteration that comes before the sleep. *)
Lemma iteration_trace_split env round sampleNumber w :
  exists probing,
    iteration_trace env round sampleNumber w
    = probing
      ++ sleep_trace env (ICMPPingTransmitter.m_interval (this w)) (elapsed env round)
    /\ sleeps probing = []
    /\ epochs probing = []
    /\ sent_targets probing = ICMPPingTransmitter.m_targets (this w)
    /\ steps probing
       = flat_map (fun _ => code_order) (ICMPPingTransmitter.m_targets (this w))
    /\ errors probing
       = map ICMPPingTarget.hostAddress (failed_targets probing).
Proof.
  unfold iteration_trace.
  set (ts := ICMPPingTransmitter.m_targets (this w)).
  exists (announce_trace ts ++ [EvRestart; EvLock TargetsMutex]
          ++ round_trace env sampleNumber w ts
          ++ [EvUnlock TargetsMutex; EvElapsed (elapsed env round)]).
  assert (A : forall P : list event -> Prop,
             P [] -> P [EvTrace (ICMPPingTarget.hostAddress (last (tl ts) (hd example_target ts)))] ->
             P (announce_trace ts))
    by (intros P H0 H1; destruct ts; [exact H0 | exact H1]).
  repeat split.
  - now rewrite <- !app_assoc.
  - rewrite !sleeps_app, round_trace_sleeps.
    apply (A (fun a => sleeps a ++ _ = [])); reflexivity.
  - rewrite !epochs_app, round_trace_epochs.
    apply (A (fun a => epochs a ++ _ = [])); reflexivity.
  - rewrite !sent_targets_app, round_trace_sent_targets.
    apply (A (fun a => sent_targets a ++ _ = ts)); cbn; now rewrite app_nil_r.
  - rewrite !steps_app, round_trace_steps.
    apply (A (fun a => steps a ++ _ = _)); cbn; now rewrite app_nil_r.
  - rewrite !errors_app, !failed_targets_app, !map_app, round_trace_errors.
    apply (A (fun a => errors a ++ _ = map _ (failed_targets a) ++ _)); reflexivity.
Qed.

(** *** Timed traces *)

Lemma nondecreasing_app a : forall b,
  nondecreasing (a ++ b) = true ->
  nondecreasing a = true
  /\ nondecreasing b = true
  /\ forall x y, In x a -> In y b -> x <= y.
Proof.
  induction a as [|c a IH]; intros b H; cbn in *.
  - repeat split; [exact H | intros x y []].
  - apply andb_true_iff in H. destruct H as [H1 H2].
    rewrite forallb_app in H1. apply andb_true_iff in H1. destruct H1 as [H1a H1b].
    destruct (IH b H2) as (A & B & C). rewrite H1a, A.
    repeat split; [exact B|]. intros x y [<-|Hx] Hy.
    + apply Z.leb_le. rewrite forallb_forall in H1b. now apply H1b.
    + now apply C.
Qed.

Lemma nondecreasing_head c r :
  nondecreasing (c :: r) = true -> forall y, In y r -> c <= y.
Proof.
  cbn. intros H y Hy. apply andb_true_iff in H. destruct H as [H _].
  apply Z.leb_le. rewrite forallb_forall in H. now apply H.
Qed.

(** Events that are neither calls of the timer nor sends change nothing
    for the timer and are at no time of interest. *)
Lemma timer_agrees_skip tb : forall started rest,
  Forall (fun e => is_timer_event e = false) (map fst tb) ->
  timer_agrees started (tb ++ rest) = timer_agrees started rest.
Proof.
  induction tb as [|[e now] tb IH]; intros started rest H; [reflexivity|].
  inversion H as [|? ? He Hr]; subst. cbn in He.
  destruct e; try discriminate; cbn; now apply IH.
Qed.

Lemma no_timer_times tb :
  Forall (fun e => is_timer_event e = false) (map fst tb) ->
  restart_times tb = [] /\ elapsed_times tb = [].
Proof.
  induction tb as [|[e now] tb IH]; intro H; [split; reflexivity|].
  inversion H as [|? ? He Hr]; subst. cbn in He.
  destruct (IH Hr) as [E1 E2]. unfold restart_times, elapsed_times in *.
  destruct e; try discriminate; cbn; now rewrite ?E1, ?E2.
Qed.

Lemma no_send_times tb :
  Forall (fun e => is_send e = false) (map fst tb) -> send_times tb = [].
Proof.
  induction tb as [|[e now] tb IH]; intro H; [reflexivity|].
  inversion H as [|? ? He Hr]; subst. cbn in He.
  unfold send_times in *. cbn. now rewrite He, IH.
Qed.

Lemma send_times_in tb s : In s (send_times tb) -> In s (map snd tb).
Proof.
  unfold send_times. intro H. apply in_flat_map in H. destruct H as ([e now] & Hin & H).
  cbn in H. destruct (is_send e); [|contradiction]. destruct H as [<-|[]].
  now apply (in_map snd) in Hin.
Qed.

Lemma round_trace_no_timer env sampleNumber ts : forall w,
  Forall (fun e => is_timer_event e = false) (round_trace env sampleNumber w ts).
Proof.
  induction ts as [|x r IH]; intro w; [constructor|].
  cbn [round_trace]. apply Forall_app. split; [|apply IH].
  unfold probe_trace. apply Forall_app. split; [repeat constructor|].
  destruct (send_failed _ _); repeat constructor.
Qed.

Lemma announce_trace_plain ts :
  Forall (fun e => is_timer_event e = false) (announce_trace ts)
  /\ Forall (fun e => is_send e = false) (announce_trace ts).
Proof. destruct ts; split; repeat constructor. Qed.

Lemma sleep_trace_plain env interval elapsedTime :
  Forall (fun e => is_timer_event e = false) (sleep_trace env interval elapsedTime)
  /\ Forall (fun e => is_send e = false) (sleep_trace env interval elapsedTime).
Proof. unfold sleep_trace. destruct (_ <? _); split; repeat constructor. Qed.

(** A timed trace of an iteration: the one [restart()] is at a time
    [started], before the probes, the one [elapsed()] at a time [finished],
    after them, and what [elapsed()] reports is the time between the two. *)
Lemma timed_iteration env round sampleNumber w tt :
  map fst tt = iteration_trace env round sampleNumber w ->
  nondecreasing (map snd tt) = true ->
  timer_agrees None tt = true ->
  exists started finished,
    restart_times tt = [started]
    /\ elapsed_times tt = [finished]
    /\ Forall (fun s => started <= s <= finished) (send_times tt)
    /\ started <= finished
    /\ elapsed env round = finished - started.
Proof.
  unfold iteration_trace.
  set (ts := ICMPPingTransmitter.m_targets (this w)).
  set (interval := ICMPPingTransmitter.m_interval (this w)).
  intros Hmap Hnd Hagree.
  apply map_eq_app in Hmap. destruct Hmap as (ta & r1 & -> & Ha & Hmap).
  destruct r1 as [|[e1 started] [|[e2 l2] r2]]; try discriminate.
  cbn in Hmap. injection Hmap as -> -> Hmap.
  apply map_eq_app in Hmap. destruct Hmap as (tb & r3 & -> & Hb & Hmap).
  destruct r3 as [|[e3 l3] [|[e4 finished] tc]]; try discriminate.
  cbn in Hmap. injection Hmap as -> -> Hc.
  destruct (announce_trace_plain ts) as [Pa Sa]. rewrite <- Ha in Pa, Sa.
  destruct (sleep_trace_plain env interval (elapsed env round)) as [Pc Sc].
  rewrite <- Hc in Pc, Sc.
  pose proof (round_trace_no_timer env sampleNumber ts w) as Pb. rewrite <- Hb in Pb.
  (* the timer *)
  rewrite (timer_agrees_skip ta _ _ Pa) in Hagree. cbn [timer_agrees] in Hagree.
  rewrite (timer_agrees_skip tb _ _ Pb) in Hagree. cbn [timer_agrees] in Hagree.
  apply andb_true_iff in Hagree. destruct Hagree as [He _].
  apply Z.eqb_eq in He.
  (* the clock *)
  rewrite !map_app in Hnd. cbn [map snd] in Hnd. rewrite map_app in Hnd. cbn [map snd] in Hnd.
  destruct (nondecreasing_app _ _ Hnd) as (_ & Hnd1 & _).
  pose proof (nondecreasing_head _ _ Hnd1) as Hafter.
  assert (Hbefore : forall y, In y (map snd tb) -> y <= finished).
  { intros y Hy.
    change (started :: l2 :: map snd tb ++ l3 :: finished :: map snd tc)
      with ((started :: l2 :: map snd tb) ++ [l3] ++ finished :: map snd tc) in Hnd1.
    rewrite app_assoc in Hnd1.
    destruct (nondecreasing_app _ _ Hnd1) as (_ & _ & H).
    apply H; [|now left]. apply in_or_app. left. right. right. exact Hy. }
  exists started, finished.
  destruct (no_timer_times ta Pa) as [Ra Ea].
  destruct (no_timer_times tb Pb) as [Rb Eb].
  destruct (no_timer_times tc Pc) as [Rc Ec].
  unfold restart_times, elapsed_times, send_times in *.
  rewrite !flat_map_app. cbn [flat_map fst snd is_send app].
  rewrite !flat_map_app. cbn [flat_map fst snd is_send app].
  rewrite Ra, Rb, Rc, Ea, Eb, Ec.
  fold (send_times ta). fold (send_times tb). fold (send_times tc).
  rewrite (no_send_times ta Sa), (no_send_times tc Sc). cbn [app]. rewrite app_nil_r.
  repeat split.
  - apply Forall_forall. intros s Hs. apply send_times_in in Hs. split.
    + apply Hafter. right. apply in_or_app. now left.
    + now apply Hbefore.
  - apply Hafter. right. apply in_or_app. right. right. now left.
  - exact He.
Qed.

(** C3: in every iteration the timer is restarted before the first probe
    and read after the last one, so that what it reports is the time the
    probing of the round has taken on the clock; after the probes the loop
    sleeps for exactly max(0, interval - elapsed) milliseconds, and not at
    all when elapsed >= interval, in particular not on a round whose sends
    alone have taken the interval or longer. *)
Theorem sleep_is_drift_corrected env round sampleNumber w tt :
  is_int (ICMPPingTransmitter.m_interval (this w)) ->
  let interval := ICMPPingTransmitter.m_interval (this w) in
  let t := trace_of (iteration env round sampleNumber w) in
  map fst tt = t ->
  nondecreasing (map snd tt) = true ->
  timer_agrees None tt = true ->
  exists started finished,
    restart_times tt = [started]
    /\ elapsed_times tt = [finished]
    /\ Forall (fun s => started <= s <= finished) (send_times tt)
    /\ (exists probing,
          t = probing ++ map EvSleep (sleeps t)
          /\ sleeps probing = []
          /\ sent_targets probing = ICMPPingTransmitter.m_targets (this w))
    /\ sleeps t
       = (if interval <=? finished - started then []
          else [interval - (finished - started)])
    /\ slept t = Z.max 0 (interval - (finished - started))
    /\ (forall a b,
          In a (send_times tt) -> In b (send_times tt) ->
          interval <= b - a -> sleeps t = []).
Proof.
  intros Hint. cbv zeta.
  rewrite iteration_spec. cbn [trace_of snd].
  intros Hmap Hnd Hagree.
  destruct (timed_iteration env round sampleNumber w tt Hmap Hnd Hagree)
    as (started & finished & HR & HE & HS & Hle & Hel).
  exists started, finished.
  destruct (iteration_trace_split env round sampleNumber w)
    as (probing & E & Hs & _ & Hsent & _).
  rewrite E. clear E. rewrite Hel.
  set (interval := ICMPPingTransmitter.m_interval (this w)) in *.
  set (elapsedTime := finished - started) in *.
  assert (S : sleep_trace env interval elapsedTime
              = map EvSleep
                  (if interval <=? elapsedTime then [] else [interval - elapsedTime])).
  { unfold sleep_trace.
    destruct (Z.ltb_spec elapsedTime interval) as [L|L];
      destruct (Z.leb_spec interval elapsedTime) as [L'|L']; try lia; [|reflexivity].
    cbn. rewrite to_ulong_small; [reflexivity|].
    apply int_fits_ulong. unfold is_int, INT_MAX, INT_MIN in *. lia. }
  assert (R : forall l, sleeps (map EvSleep l) = l)
    by (unfold sleeps; induction l as [|x l IH]; cbn; [reflexivity | now rewrite IH]).
  unfold slept. rewrite S, sleeps_app, Hs, R. cbn [app].
  repeat split; try assumption.
  - exists probing. repeat split; assumption.
  - destruct (Z.leb_spec interval elapsedTime); cbn [fold_right]; lia.
  - intros a b Ha Hb Hab.
    rewrite Forall_forall in HS.
    pose proof (HS a Ha). pose proof (HS b Hb).
    destruct (Z.leb_spec interval elapsedTime); [reflexivity|].
    unfold elapsedTime in *. lia.
Qed.

Lemma sleep_is_drift_corrected_example :
  let t := trace_of (iteration example_env 0 0 example_world) in
  exists started finished,
    restart_times example_timed_round = [started]
    /\ elapsed_times example_timed_round = [finished]
    /\ Forall (fun s => started <= s <= finished) (send_times example_timed_round)
    /\ (exists probing,
          t = probing ++ map EvSleep (sleeps t)
          /\ sleeps probing = []
          /\ sent_targets probing = [example_target])
    /\ sleeps t
       = (if 10000 <=? finished - started then []
          else [10000 - (finished - started)])
    /\ slept t = Z.max 0 (10000 - (finished - started))
    /\ (forall a b,
          In a (send_times example_timed_round) ->
          In b (send_times example_timed_round) ->
          10000 <= b - a -> sleeps t = []).
Proof.
  apply (sleep_is_drift_corrected example_env 0 0 example_world example_timed_round).
  - split; apply Z.leb_le; reflexivity.
  - reflexivity.
  - reflexivity.
  - reflexivity.
Defined.

(** C4, as stated, fails: in the round of the concrete transmitter the
    steps are not taken with the registration after the send. *)
Lemma registration_is_not_last :
  steps (trace_of (iteration example_env 0 0 example_world))
  <> flat_map (fun _ => register_last_order)
       (ICMPPingTransmitter.m_targets (this example_world)).
Proof. vm_compute. discriminate. Qed.

(** C4, amended: for each target of a round, in the order of the targets,
    the transmitter allocates a sequence number, registers the item with the
    engine, builds the packet, sends it, and then stamps the item: the
    registration comes before the send. *)
Theorem registration_precedes_send env round sampleNumber w :
  steps (trace_of (iteration env round sampleNumber w))
  = flat_map (fun _ => [Allocate; Register; Build; Send; Stamp])
      (ICMPPingTransmitter.m_targets (this w)).
Proof.
  rewrite iteration_spec. cbn [trace_of snd].
  destruct (iteration_trace_split env round sampleNumber w)
    as (probing & E & _ & _ & _ & Hsteps & _).
  rewrite E, steps_app, Hsteps. unfold sleep_trace.
  destruct (_ <? _); cbn; now rewrite app_nil_r.
Qed.

(** * The whole loop *)

Section WholeLoop.

Variable env : Environment.

Lemma start_world_running w :
  ICMPPingTransmitter.m_isRunning (this (start_world env w)) = true.
Proof. reflexivity. Qed.

Lemma iteration_trace_epochs round sampleNumber w :
  epochs (iteration_trace env round sampleNumber w) = [].
Proof.
  destruct (iteration_trace_split env round sampleNumber w)
    as (probing & E & _ & He & _).
  rewrite E, epochs_app, He. unfold sleep_trace. now destruct (_ <? _).
Qed.

Lemma loop_trace_epochs fuel : forall round sampleNumber w,
  epochs (loop_trace env fuel round sampleNumber w) = [].
Proof.
  induction fuel as [|fuel IH]; intros round sampleNumber w; [reflexivity|].
  cbn [loop_trace]. destruct (ICMPPingTransmitter.m_isRunning (this w)); [|reflexivity].
  now rewrite epochs_app, iteration_trace_epochs, IH.
Qed.

Lemma loop_world_epoch fuel : forall round sampleNumber w,
  ICMPPingEngine.epoch (engine (loop_world env fuel round sampleNumber w))
  = ICMPPingEngine.epoch (engine w).
Proof.
  induction fuel as [|fuel IH]; intros round sampleNumber w; [reflexivity|].
  rewrite loop_world_unfold. destruct (ICMPPingTransmitter.m_isRunning (this w)); [|reflexivity].
  now rewrite IH, next_world_engine, round_world_epoch.
Qed.

End WholeLoop.

Section LoopSends.

Variable env : Environment.

Lemma iteration_trace_sends round sampleNumber w :
  sent_targets (iteration_trace env round sampleNumber w)
  = ICMPPingTransmitter.m_targets (this w)
  /\ errors (iteration_trace env round sampleNumber w)
     = map ICMPPingTarget.hostAddress
         (failed_targets (iteration_trace env round sampleNumber w)).
Proof.
  destruct (iteration_trace_split env round sampleNumber w)
    as (probing & E & _ & _ & Hsent & _ & Herr).
  assert (Q : forall i e,
             sent (sleep_trace env i e) = [] /\ errors (sleep_trace env i e) = [])
    by (intros i e; unfold sleep_trace; destruct (_ <? _); split; reflexivity).
  destruct (Q (ICMPPingTransmitter.m_interval (this w)) (elapsed env round)) as [Q1 Q2].
  split.
  - rewrite E, sent_targets_app, Hsent. unfold sent_targets. rewrite Q1.
    cbn. now rewrite app_nil_r.
  - rewrite E, errors_app, failed_targets_app, map_app, Herr, Q2.
    unfold failed_targets. rewrite Q1. reflexivity.
Qed.

(** Every error line of the loop is for a send that failed, and the other
    way round. *)
Lemma loop_trace_errors fuel : forall round sampleNumber w,
  errors (loop_trace env fuel round sampleNumber w)
  = map ICMPPingTarget.hostAddress
      (failed_targets (loop_trace env fuel round sampleNumber w)).
Proof.
  induction fuel as [|fuel IH]; intros round sampleNumber w; [reflexivity|].
  cbn [loop_trace]. destruct (ICMPPingTransmitter.m_isRunning (this w)); [|reflexivity].
  rewrite errors_app, failed_targets_app, map_app, IH.
  now rewrite (proj2 (iteration_trace_sends round sampleNumber w)).
Qed.

(** As long as nobody stops it, the loop sends in every round to every
    target. *)
Lemma loop_trace_sent_targets n : forall round sampleNumber w,
  ICMPPingTransmitter.m_isRunning (this w) = true ->
  uninterrupted env round n ->
  sent_targets (loop_trace env n round sampleNumber w)
  = concat (repeat (ICMPPingTransmitter.m_targets (this w)) n).
Proof.
  induction n as [|n IH]; intros round sampleNumber w Hrun Hun; [reflexivity|].
  cbn [loop_trace repeat concat]. rewrite Hrun.
  pose proof (next_world_this env round sampleNumber w (uninterrupted_head env _ _ Hun)) as E.
  rewrite sent_targets_app, (proj1 (iteration_trace_sends round sampleNumber w)).
  rewrite IH; [now rewrite E | now rewrite E | now apply uninterrupted_tail].
Qed.

End LoopSends.

(** C6: a send that fails is logged and stops nothing.  In a round,
    whatever the sends return, every target is sent to, in order, an error is
    logged for exactly the targets whose send failed, and the flag the loop
    tests is left alone.  And the loop goes on: as long as no other thread
    stops it, [doWork] makes round after round and sends in each of them to
    every target, whatever the sends have returned. *)
Theorem send_failure_does_not_abort env n w :
  uninterrupted env 0 n ->
  let r := doWork env n w in
  sent_targets (trace_of r)
  = concat (repeat (ICMPPingTransmitter.m_targets (this w)) n)
  /\ errors (trace_of r) = map ICMPPingTarget.hostAddress (failed_targets (trace_of r))
  /\ ICMPPingTransmitter.m_isRunning (this (world_of r)) = true
  /\ forall round sampleNumber w',
       let i := iteration env round sampleNumber w' in
       sent_targets (trace_of i) = ICMPPingTransmitter.m_targets (this w')
       /\ errors (trace_of i)
          = map ICMPPingTarget.hostAddress (failed_targets (trace_of i))
       /\ ICMPPingTransmitter.m_isRunning (this (world_of i))
          = ICMPPingTransmitter.m_isRunning (this w')
       /\ ICMPPingTransmitter.m_isRunning (this (next_world env round sampleNumber w'))
          = ICMPPingTransmitter.m_isRunning (this w')
            && negb (stopRequested env round).
Proof.
  intro Hun. cbv zeta. rewrite doWork_spec. cbn [trace_of world_of fst snd].
  repeat split.
  - change (EvSetEpoch (currentDateTime env) :: ?l)
      with ([EvSetEpoch (currentDateTime env)] ++ l).
    rewrite sent_targets_app.
    now rewrite (loop_trace_sent_targets env n 0 0 (start_world env w)
                   (start_world_running env w) Hun).
  - change (EvSetEpoch (currentDateTime env) :: ?l)
      with ([EvSetEpoch (currentDateTime env)] ++ l).
    rewrite errors_app, failed_targets_app, map_app.
    now rewrite loop_trace_errors.
  - now rewrite loop_world_this by (auto using start_world_running).
  - rewrite iteration_spec. apply iteration_trace_sends.
  - rewrite iteration_spec. apply iteration_trace_sends.
  - rewrite iteration_spec. cbn [world_of fst snd]. now rewrite round_world_this.
  - unfold next_world. cbn [this set_this]. rewrite round_world_this.
    destruct (stopRequested env round); cbn;
      [now rewrite andb_false_r | now rewrite andb_true_r].
Qed.

Lemma send_failure_does_not_abort_example :
  let r := doWork failing_env 3 example_world in
  sent_targets (trace_of r) = [example_target; example_target; example_target]
  /\ errors (trace_of r)
     = ["192.0.2.1"%string; "192.0.2.1"%string; "192.0.2.1"%string]
  /\ ICMPPingTransmitter.m_isRunning (this (world_of r)) = true
  /\ forall round sampleNumber w',
       let i := iteration failing_env round sampleNumber w' in
       sent_targets (trace_of i) = ICMPPingTransmitter.m_targets (this w')
       /\ errors (trace_of i)
          = map ICMPPingTarget.hostAddress (failed_targets (trace_of i))
       /\ ICMPPingTransmitter.m_isRunning (this (world_of i))
          = ICMPPingTransmitter.m_isRunning (this w')
       /\ ICMPPingTransmitter.m_isRunning
            (this (next_world failing_env round sampleNumber w'))
          = ICMPPingTransmitter.m_isRunning (this w')
            && negb (stopRequested failing_env round).
Proof.
  destruct (send_failure_does_not_abort failing_env 3 example_world) as (A & B & C & D).
  - intros k _. reflexivity.
  - split; [exact A|]. split; [|split; [exact C | exact D]].
    rewrite B. vm_compute. reflexivity.
Defined.

(** C9: [doWork] sets the epoch of the engine to the current time as the
    first thing it does to the outside, hence before any packet is sent, and
    does so only once; afterwards [epoch()] returns that time. *)
Theorem epoch_is_set_once_at_start env fuel w :
  let r := doWork env fuel w in
  exists rest,
    trace_of r = EvSetEpoch (currentDateTime env) :: rest
    /\ epochs rest = []
    /\ ICMPPingEngine.epoch (engine (world_of r)) = Some (currentDateTime env).
Proof.
  cbv zeta. rewrite doWork_spec. cbn [trace_of world_of fst snd].
  exists (loop_trace env fuel 0 0 (start_world env w)). repeat split.
  - apply loop_trace_epochs.
  - now rewrite loop_world_epoch.
Qed.

(** C5: the sample counter starts at 0 and every iteration of the loop
    increments it once, after the probes: when nothing has stopped the loop
    before round [n], round [n] creates one item per target and every one of
    them carries sample number [n]. *)
Theorem sample_number_counts_rounds env n w :
  (forall k, (k < n)%nat -> stopRequested env k = false) ->
  Z.of_nat n < 2 ^ ulong_bits (dataModel env) ->
  let before := world_of (doWork env n w) in
  let after := world_of (doWork env (S n) w) in
  (exists created,
     items after = items before ++ created
     /\ length created = length (ICMPPingTransmitter.m_targets (this w))
     /\ Forall (fun i => ICMPPingItem.sampleNumber i = Z.of_nat n) created)
  /\ result_of (iteration env n (Z.of_nat n) before)
     = to_ulong (dataModel env) (Z.of_nat n + 1).
Proof.
  intros Hstop Hn. cbv zeta. split; [|now rewrite iteration_spec].
  rewrite !doWork_spec. cbn [world_of fst snd].
  assert (Hun : uninterrupted env 0 n) by (intros k Hk; apply Hstop; lia).
  assert (Hz : 0 = to_ulong (dataModel env) 0) by (now destruct (dataModel env)).
  rewrite (loop_world_S_items env n 0 0 (start_world env w)
             (start_world_running env w) Hun Hz).
  eexists. split; [reflexivity|]. split.
  - now rewrite round_items_length.
  - rewrite to_ulong_small by lia. apply round_items_sampleNumber.
Qed.

Lemma sample_number_counts_rounds_example :
  let before := world_of (doWork example_env 2 example_world) in
  let after := world_of (doWork example_env 3 example_world) in
  (exists created,
     items after = items before ++ created
     /\ length created = 1%nat
     /\ Forall (fun i => ICMPPingItem.sampleNumber i = 2) created)
  /\ result_of (iteration example_env 2 2 before) = 3.
Proof.
  apply (sample_number_counts_rounds example_env 2 example_world).
  - intros k _. reflexivity.
  - reflexivity.
Defined.

(** C1, as stated, fails: when the concrete transmitter has made 65537
    rounds and no request has been retired, the first and the last request
    in flight carry the same (identifier, sequence) pair. *)
Lemma in_flight_keys_collide_after_wrap :
  ~ in_flight_keys_differ
      (world_of (doWork example_env (Z.to_nat 65537) example_world)).
Proof.
  intro H. rewrite doWork_spec in H. cbn [world_of fst snd] in H.
  set (n := Z.to_nat 65537) in *.
  set (w := start_world example_env example_world) in *.
  assert (Hrun : ICMPPingTransmitter.m_isRunning (this w) = true) by reflexivity.
  assert (Hun : uninterrupted example_env 0 n) by (intros k _; reflexivity).
  assert (Hq : is_uint16 (m_sequenceId w))
    by (change (m_sequenceId w) with 1; unfold is_uint16; lia).
  assert (Ht : nth_error (ICMPPingTransmitter.m_targets (this w)) 0 = Some example_target)
    by reflexivity.
  assert (H0 : (0 < n)%nat) by (unfold n; lia).
  assert (H1 : (Z.to_nat 65536 < n)%nat) by (unfold n; lia).
  pose proof (loop_world_items_nth example_env n w 0 0 example_target
                Hrun Hun Hq H0 Ht) as A.
  pose proof (loop_world_items_nth example_env n w (Z.to_nat 65536) 0 example_target
                Hrun Hun Hq H1 Ht) as B.
  pose proof (loop_world_requests example_env n 0 0 w Hrun Hun) as R.
  cbv zeta in A, B.
  change (length (ICMPPingTransmitter.m_targets (this w))) with 1%nat in A, B, R.
  change (length (items w)) with 0%nat in A, B, R.
  change (in_flight w) with (@nil ItemPtr) in R.
  change (m_sequenceId w) with 1 in A, B.
  rewrite app_nil_l in R.
  replace (0 + 0 * 1 + 0)%nat with 0%nat in A by lia.
  replace (0 + Z.to_nat 65536 * 1 + 0)%nat with (Z.to_nat 65536) in B by lia.
  replace (to_uint16 (1 + Z.of_nat (Z.to_nat 65536 * 1 + 0))) with 1 in B
    by (replace (Z.of_nat (Z.to_nat 65536 * 1 + 0)) with 65536 by lia; reflexivity).
  refine (H 0%nat (Z.to_nat 65536) 0%nat (Z.to_nat 65536) _ _ _ _ _ A B _).
  - lia.
  - rewrite R, nth_error_seq.
    destruct (Nat.ltb_spec 0 (n * 1)); [reflexivity | lia].
  - rewrite R, nth_error_seq.
    destruct (Nat.ltb_spec (Z.to_nat 65536) (n * 1)); [reflexivity | unfold n in *; lia].
  - reflexivity.
Qed.

(** * Facts about the interleavings *)

Module InterleavingFacts.

Import Interleaving.

Lemma upd_same {A} (f : nat -> A) k v : upd f k v k = v.
Proof. unfold upd. now rewrite Nat.eqb_refl. Qed.

Lemma upd_other {A} (f : nat -> A) k v k' : k' <> k -> upd f k v k' = f k'.
Proof. unfold upd. intro H. now destruct (Nat.eqb_spec k' k). Qed.

Lemma initial_invariant s : initial s -> invariant (m_sequenceId s) s.
Proof.
  intros (Hs & Ht & Hp & Ha & Hq). constructor.
  - intros t H. now rewrite Hp in H.
  - intros t H. now rewrite Hp in H.
  - intros t i x v H. now rewrite Hp in H.
  - rewrite Ha. cbn. now rewrite Z.add_0_r, to_uint16_small.
  - intros n a H. rewrite Ha in H. now destruct n.
Qed.

Lemma upd_hit {A} (f : nat -> A) k v k' : k' = k -> upd f k v k' = v.
Proof. intros ->. apply upd_same. Qed.

(** Splits on whether the thread (or transmitter) looked at is the one the
    step has changed. *)
Ltac who :=
  repeat match goal with
  | H : context [upd _ ?k _ ?k'] |- _ =>
      let E := fresh "E" in
      destruct (Nat.eq_dec k' k) as [E|E];
      [ rewrite (upd_hit _ _ _ _ E) in * | rewrite (upd_other _ _ _ _ E) in * ]
  | |- context [upd _ ?k _ ?k'] =>
      let E := fresh "E" in
      destruct (Nat.eq_dec k' k) as [E|E];
      [ rewrite (upd_hit _ _ _ _ E) in * | rewrite (upd_other _ _ _ _ E) in * ]
  end.

(** What the invariant says about the threads in sight. *)
Ltac known IT IS IR :=
  repeat match goal with
  | H : holds_targetsMutex (at_pc (threads _ ?u)) = true |- _ =>
      pose proof (IT u H); clear H
  | H : holds_sequenceMutex (at_pc (threads _ ?u)) = true |- _ =>
      pose proof (IS u H); clear H
  | H : at_pc (threads _ ?u) = SeqWrite _ _ _ |- _ =>
      pose proof (IR u _ _ _ H); revert H
  end; intros.

(** The same for the thread that steps, which is at [p]. *)
Ltac stepping IT IS t Hpc :=
  let ITt := fresh "ITt" in
  let ISt := fresh "ISt" in
  pose proof (IT t) as ITt; pose proof (IS t) as ISt;
  rewrite Hpc in ITt, ISt; cbn in ITt, ISt;
  try specialize (ITt eq_refl); try specialize (ISt eq_refl).

Ltac settle IT IS IR :=
  cbn; intros; who; cbn in *; known IT IS IR;
  try discriminate; try congruence; eauto.

Lemma step_invariant q0 t s : invariant q0 s -> invariant q0 (step t s).
Proof.
  intros [IT IS IR IC IA]. unfold step.
  destruct (at_pc (threads s t)) eqn:Hpc; stepping IT IS t Hpc.
  - (* Idle *)
    destruct (calls (threads s t)) as [|[|x] rest]; [now constructor| |];
      constructor; settle IT IS IR.
  - (* RoundLock *)
    destruct (m_targetsMutex s (tx (threads s t))) eqn:Hm in |- *; [now constructor|].
    constructor; settle IT IS IR.
  - (* ForTarget *)
    destruct (nth_error _ _); constructor; settle IT IS IR.
  - (* SeqLock *)
    destruct (m_sequenceMutex s) eqn:Hm in |- *; [now constructor|].
    constructor; settle IT IS IR.
  - (* SeqRead *)
    constructor; settle IT IS IR.
  - (* SeqWrite *)
    pose proof (IR t _ _ _ Hpc) as Hv.
    constructor.
    + settle IT IS IR.
    + settle IT IS IR.
    + cbn. intros t0 i0 x0 v0 H0. who; [discriminate|].
      exfalso. apply E.
      assert (Hs : m_sequenceMutex s = Some t0) by (apply IS; now rewrite H0).
      congruence.
    + cbn. rewrite length_app, Hv, IC, to_uint16_idem. cbn [length].
      f_equal. lia.
    + cbn. intros n a Hn.
      destruct (Nat.lt_ge_cases n (length (allocations s))) as [L|L].
      * rewrite nth_error_app1 in Hn by exact L. now apply IA.
      * rewrite nth_error_app2 in Hn by exact L.
        destruct (n - length (allocations s))%nat as [|m] eqn:D; cbn in Hn.
        -- injection Hn as <-. cbn. rewrite Hv, IC. f_equal. lia.
        -- now destruct m.
  - (* SeqUnlock *)
    constructor; settle IT IS IR.
  - (* Probe *)
    constructor; settle IT IS IR.
  - (* RoundUnlock *)
    constructor; settle IT IS IR.
  - (* AddLock *)
    destruct (m_targetsMutex s (tx (threads s t))) eqn:Hm in |- *; [now constructor|].
    constructor; settle IT IS IR.
  - (* AddAppend *)
    constructor; settle IT IS IR.
  - (* AddUnlock *)
    constructor; settle IT IS IR.
Qed.

Lemma run_invariant q0 schedule : forall s,
  invariant q0 s -> invariant q0 (run schedule s).
Proof.
  induction schedule as [|t r IH]; intros s H; [exact H|].
  cbn. apply IH. now apply step_invariant.
Qed.

Lemma reachable_invariant s0 schedule :
  initial s0 -> invariant (m_sequenceId s0) (run schedule s0).
Proof. intro H. now apply run_invariant, initial_invariant. Qed.

(** Equal residues of two numbers fewer than 65536 apart. *)
Lemma to_uint16_injective_in_window x d :
  0 < d < 65536 -> to_uint16 x <> to_uint16 (x + d).
Proof.
  unfold to_uint16, to_unsigned. change (2 ^ 16) with 65536. intros Hd E.
  pose proof (Z.div_mod x 65536 ltac:(lia)).
  pose proof (Z.div_mod (x + d) 65536 ltac:(lia)).
  lia.
Qed.

(** What a step does to the targets of a transmitter: nothing, unless it
    is the append of a thread inside [addTarget] on that transmitter. *)
Lemma step_targets t e s :
  m_targets (step t s) e
  = match at_pc (threads s t) with
    | AddAppend x =>
        if Nat.eqb e (tx (threads s t)) then m_targets s e ++ [x] else m_targets s e
    | _ => m_targets s e
    end.
Proof.
  unfold step.
  destruct (at_pc (threads s t)) eqn:Hpc; cbn; try reflexivity.
  - now destruct (calls (threads s t)) as [|[|y] rest].
  - now destruct (m_targetsMutex s _).
  - now destruct (nth_error _ _).
  - now destruct (m_sequenceMutex s).
  - now destruct (m_targetsMutex s _).
  - unfold upd. now destruct (Nat.eqb_spec e (tx (threads s t))) as [->|].
Qed.

Lemma example_state_initial : initial example_state.
Proof.
  unfold initial. split; [reflexivity|]. split; [reflexivity|]. split.
  - intros [|[|[|t]]]; reflexivity.
  - split; [reflexivity|]. split; [apply Z.leb_le | apply Z.ltb_lt]; reflexivity.
Defined.

(** C1, amended: whatever the schedule of the threads, the sequence numbers
    handed out are the successive values of one 16-bit counter, so that two
    items whose sequence numbers were handed out fewer than 65536 allocations
    apart have different sequence numbers, and different (identifier,
    sequence) pairs. *)
Theorem allocations_in_a_window_differ s0 schedule i j a b :
  initial s0 ->
  nth_error (allocations (run schedule s0)) i = Some a ->
  nth_error (allocations (run schedule s0)) j = Some b ->
  Z.of_nat i < Z.of_nat j < Z.of_nat i + 65536 ->
  sequence a = to_uint16 (m_sequenceId s0 + Z.of_nat i)
  /\ sequence b = to_uint16 (m_sequenceId s0 + Z.of_nat j)
  /\ sequence a <> sequence b
  /\ (identifier a, sequence a) <> (identifier b, sequence b).
Proof.
  intros Hi Ha Hb Hij.
  destruct (reachable_invariant s0 schedule Hi) as [_ _ _ _ IA].
  pose proof (IA _ _ Ha) as Ea. pose proof (IA _ _ Hb) as Eb.
  assert (D : sequence a <> sequence b).
  { rewrite Ea, Eb.
    replace (m_sequenceId s0 + Z.of_nat j)
      with (m_sequenceId s0 + Z.of_nat i + (Z.of_nat j - Z.of_nat i)) by lia.
    apply to_uint16_injective_in_window. lia. }
  repeat split; try assumption. congruence.
Qed.

Lemma allocations_in_a_window_differ_example :
  let a := mkAllocation 0 7 1 in
  let b := mkAllocation 1 7 2 in
  sequence a = to_uint16 (1 + 0)
  /\ sequence b = to_uint16 (1 + 1)
  /\ sequence a <> sequence b
  /\ (identifier a, sequence a) <> (identifier b, sequence b).
Proof.
  apply (allocations_in_a_window_differ example_state example_schedule 0 1).
  - exact example_state_initial.
  - reflexivity.
  - reflexivity.
  - lia.
Defined.

(** C7: in every state the threads can reach, a step that changes the
    targets of a transmitter is made by the thread that holds its
    [m_targetsMutex]; a thread inside the iteration of a round holds that
    mutex, and while it does no step of any thread changes the targets of its
    transmitter. *)
Theorem targets_change_only_under_the_lock s0 schedule :
  initial s0 ->
  let s := run schedule s0 in
  (forall t e,
     m_targets (step t s) e <> m_targets s e ->
     m_targetsMutex s e = Some t)
  /\ (forall w,
        in_round (at_pc (threads s w)) = true ->
        m_targetsMutex s (tx (threads s w)) = Some w
        /\ forall t,
             m_targets (step t s) (tx (threads s w))
             = m_targets s (tx (threads s w))).
Proof.
  intros Hi s.
  destruct (reachable_invariant s0 schedule Hi) as [IT _ _ _ _]. fold s in IT.
  assert (A : forall t e,
             m_targets (step t s) e <> m_targets s e ->
             m_targetsMutex s e = Some t).
  { intros t e H. rewrite step_targets in H.
    destruct (at_pc (threads s t)) eqn:Hpc; try (now contradiction H).
    destruct (Nat.eqb_spec e (tx (threads s t))) as [->|]; [|now contradiction H].
    apply IT. now rewrite Hpc. }
  split; [exact A|].
  intros w Hw.
  assert (L : m_targetsMutex s (tx (threads s w)) = Some w).
  { apply IT. unfold holds_targetsMutex. rewrite Hw. now destruct (at_pc (threads s w)). }
  split; [exact L|].
  intro t. rewrite step_targets.
  destruct (at_pc (threads s t)) eqn:Hpc; try reflexivity.
  destruct (Nat.eqb_spec (tx (threads s w)) (tx (threads s t))) as [E|]; [|reflexivity].
  exfalso.
  assert (T : m_targetsMutex s (tx (threads s t)) = Some t)
    by (apply IT; now rewrite Hpc).
  rewrite <- E, L in T. injection T as ->. now rewrite Hpc in Hw.
Qed.

Lemma targets_change_only_under_the_lock_example :
  let s := run example_schedule example_state in
  (forall t e,
     m_targets (step t s) e <> m_targets s e ->
     m_targetsMutex s e = Some t)
  /\ (forall w,
        in_round (at_pc (threads s w)) = true ->
        m_targetsMutex s (tx (threads s w)) = Some w
        /\ forall t,
             m_targets (step t s) (tx (threads s w))
             = m_targets s (tx (threads s w))).
Proof.
  apply (targets_change_only_under_the_lock example_state example_schedule).
  exact example_state_initial.
Defined.

End InterleavingFacts.

(** * More about [doWork] *)

Section MoreDoWork.

Variable env : Environment.

(** A reading of the trace that ignores the log, the timer and the mutexes
    sees of an iteration only the probes. *)
Lemma iteration_trace_flat_map {A} (g : event -> list A) round sampleNumber w :
  (forall a, g (EvTrace a) = []) ->
  g EvRestart = [] ->
  (forall m, g (EvLock m) = []) ->
  (forall m, g (EvUnlock m) = []) ->
  (forall z, g (EvElapsed z) = []) ->
  (forall z, g (EvSleep z) = []) ->
  flat_map g (iteration_trace env round sampleNumber w)
  = flat_map g (round_trace env sampleNumber w (ICMPPingTransmitter.m_targets (this w))).
Proof.
  intros Ht Hr Hl Hu He Hs. unfold iteration_trace, announce_trace, sleep_trace.
  rewrite !flat_map_app.
  replace (flat_map g match ICMPPingTransmitter.m_targets (this w) with
                      | [] => []
                      | t :: r => [EvTrace (ICMPPingTarget.hostAddress (last r t))]
                      end) with (@nil A)
    by (destruct (ICMPPingTransmitter.m_targets (this w)); cbn; now rewrite ?Ht).
  replace (flat_map g (if elapsed env round <? ICMPPingTransmitter.m_interval (this w)
                       then [EvSleep (to_ulong (dataModel env)
                               (ICMPPingTransmitter.m_interval (this w) - elapsed env round))]
                       else [])) with (@nil A)
    by (destruct (_ <? _); cbn; now rewrite ?Hs).
  cbn. rewrite Hr, Hl, Hu, He. cbn. now rewrite !app_nil_r.
Qed.

Lemma round_trace_created sampleNumber ts : forall w,
  created (round_trace env sampleNumber w ts) = seq (length (items w)) (length ts)
  /\ registered (round_trace env sampleNumber w ts) = seq (length (items w)) (length ts)
  /\ stamped (round_trace env sampleNumber w ts) = seq (length (items w)) (length ts).
Proof.
  induction ts as [|x r IH]; intro w; [repeat split|].
  cbn [round_trace length seq]. unfold created, registered, stamped in *.
  rewrite !flat_map_app.
  destruct (IH (probe_world sampleNumber w x)) as (E1 & E2 & E3).
  rewrite E1, E2, E3. cbn [probe_world items]. rewrite length_app, Nat.add_1_r.
  unfold probe_trace. rewrite !flat_map_app. cbn.
  destruct (send_failed _ _); repeat split.
Qed.

Lemma round_trace_packets sampleNumber ts : forall w,
  packet_keys (round_trace env sampleNumber w ts)
  = map ICMPPingItem.key (round_items sampleNumber (m_sequenceId w) ts)
  /\ sent_buffers (round_trace env sampleNumber w ts)
     = built env (round_trace env sampleNumber w ts)
  /\ Forall (fun size => size = 52) (packet_sizes (round_trace env sampleNumber w ts)).
Proof.
  induction ts as [|x r IH]; intro w; [repeat split; constructor|].
  cbn [round_trace round_items map].
  unfold packet_keys, sent_buffers, sent, built, packet_sizes in *.
  rewrite !flat_map_app, map_app.
  destruct (IH (probe_world sampleNumber w x)) as (E1 & E2 & E3).
  rewrite E1, E2. cbn [probe_world m_sequenceId].
  unfold probe_trace. rewrite !flat_map_app, map_app. cbn.
  destruct (send_failed _ _); cbn; repeat split; try (constructor; [reflexivity|]); exact E3.
Qed.

Lemma round_items_fields sampleNumber ts : forall q,
  map ICMPPingItem.target (round_items sampleNumber q ts) = map Some ts
  /\ map ICMPPingItem.id (round_items sampleNumber q ts) = map ICMPPingTarget.id ts
  /\ Forall (fun i => ICMPPingItem.timerStarted i = true) (round_items sampleNumber q ts).
Proof.
  induction ts as [|x r IH]; intro q; [repeat split; constructor|].
  destruct (IH (to_uint16 (q + 1))) as (E1 & E2 & E3).
  cbn. rewrite E1, E2. repeat split. constructor; [reflexivity | exact E3].
Qed.

Lemma round_world_sends sampleNumber ts : forall w,
  sends (round_world sampleNumber w ts) = (sends w + length ts)%nat.
Proof.
  induction ts as [|x r IH]; intro w; cbn; [lia|]. rewrite IH. cbn. lia.
Qed.

End MoreDoWork.

(** X1: the item [doWork] creates in round [k] for the [j]-th target. *)
Theorem doWork_item env n w k j x :
  uninterrupted env 0 n ->
  is_uint16 (m_sequenceId w) ->
  (k < n)%nat ->
  nth_error (ICMPPingTransmitter.m_targets (this w)) j = Some x ->
  let L := length (ICMPPingTransmitter.m_targets (this w)) in
  nth_error (items (world_of (doWork env n w))) (length (items w) + k * L + j)
  = Some (ICMPPingItem.mk (Some x) (ICMPPingTarget.id x)
            (to_uint16 (m_sequenceId w + Z.of_nat (k * L + j)))
            (to_ulong (dataModel env) (Z.of_nat k)) true).
Proof.
  intros Hun Hq Hk Hj L. rewrite doWork_spec. cbn [world_of fst snd].
  exact (loop_world_items_nth env n (start_world env w) k j x
           (start_world_running env w) Hun Hq Hk Hj).
Qed.

Lemma doWork_item_example :
  nth_error (items (world_of (doWork example_env 3 example_world))) 2
  = Some (ICMPPingItem.mk (Some example_target) 7 3 2 true).
Proof.
  apply (doWork_item example_env 3 example_world 2 0 example_target).
  - intros k _. reflexivity.
  - split; [apply Z.leb_le | apply Z.ltb_lt]; reflexivity.
  - lia.
  - reflexivity.
Defined.

(** X2: whatever the sends of a round return, the round creates one item
    per target and registers and stamps every one of them; it takes as many
    sequence numbers and makes as many sends as there are targets. *)
Theorem round_registers_every_item env round sampleNumber w :
  let r := iteration env round sampleNumber w in
  let L := length (ICMPPingTransmitter.m_targets (this w)) in
  let fresh := seq (length (items w)) L in
  created (trace_of r) = fresh
  /\ registered (trace_of r) = fresh
  /\ stamped (trace_of r) = fresh
  /\ (exists new,
        items (world_of r) = items w ++ new
        /\ length new = L
        /\ Forall (fun i => ICMPPingItem.timerStarted i = true) new)
  /\ in_flight (world_of r) = in_flight w ++ fresh
  /\ to_uint16 (m_sequenceId (world_of r)) = to_uint16 (m_sequenceId w + Z.of_nat L)
  /\ sends (world_of r) = (sends w + L)%nat.
Proof.
  cbv zeta. rewrite iteration_spec. cbn [trace_of world_of fst snd].
  set (ts := ICMPPingTransmitter.m_targets (this w)).
  destruct (round_trace_created env sampleNumber ts w) as (E1 & E2 & E3).
  unfold created, registered, stamped in *.
  rewrite !iteration_trace_flat_map by reflexivity. fold ts.
  repeat split; try assumption.
  - exists (round_items sampleNumber (m_sequenceId w) ts).
    rewrite round_world_items, round_items_length.
    repeat split. apply round_items_fields.
  - unfold in_flight. apply round_world_requests.
  - apply round_world_sequenceId.
  - apply round_world_sends.
Qed.

(** X3: the packets of a round carry the keys of the items of the round:
    the identifier of the target and the sequence number stored in the item;
    every packet has a payload of 52 bytes and is sent as it was built. *)
Theorem packets_carry_the_keys_of_the_items env round sampleNumber w :
  let r := iteration env round sampleNumber w in
  exists new,
    items (world_of r) = items w ++ new
    /\ packet_keys (trace_of r) = map ICMPPingItem.key new
    /\ map ICMPPingItem.target new = map Some (ICMPPingTransmitter.m_targets (this w))
    /\ map ICMPPingItem.id new
       = map ICMPPingTarget.id (ICMPPingTransmitter.m_targets (this w))
    /\ sent_buffers (trace_of r) = built env (trace_of r)
    /\ Forall (fun size => size = 52) (packet_sizes (trace_of r)).
Proof.
  cbv zeta. rewrite iteration_spec. cbn [trace_of world_of fst snd].
  set (ts := ICMPPingTransmitter.m_targets (this w)).
  destruct (round_trace_packets env sampleNumber ts w) as (E1 & E2 & E3).
  destruct (round_items_fields sampleNumber ts (m_sequenceId w)) as (F1 & F2 & _).
  exists (round_items sampleNumber (m_sequenceId w) ts).
  unfold packet_keys, sent_buffers, sent, built, packet_sizes in *.
  rewrite !iteration_trace_flat_map by reflexivity. fold ts.
  rewrite round_world_items. repeat split; assumption.
Qed.

Section MoreLoop.

Variable env : Environment.

Lemma next_world_targets round sampleNumber w :
  ICMPPingTransmitter.m_targets (this (next_world env round sampleNumber w))
  = ICMPPingTransmitter.m_targets (this w).
Proof.
  unfold next_world. cbn [this set_this]. rewrite round_world_this.
  now destruct (stopRequested env round).
Qed.

Lemma loop_without_targets fuel : forall round sampleNumber w,
  ICMPPingTransmitter.m_targets (this w) = [] ->
  items (loop_world env fuel round sampleNumber w) = items w
  /\ m_sequenceId (loop_world env fuel round sampleNumber w) = m_sequenceId w
  /\ engine (loop_world env fuel round sampleNumber w) = engine w
  /\ sent (loop_trace env fuel round sampleNumber w) = []
  /\ steps (loop_trace env fuel round sampleNumber w) = [].
Proof.
  induction fuel as [|fuel IH]; intros round sampleNumber w Hts; [repeat split|].
  rewrite loop_world_unfold. cbn [loop_trace].
  destruct (ICMPPingTransmitter.m_isRunning (this w)); [|repeat split].
  assert (Hn : ICMPPingTransmitter.m_targets (this (next_world env round sampleNumber w)) = [])
    by now rewrite next_world_targets.
  destruct (IH (S round) (to_ulong (dataModel env) (sampleNumber + 1)) _ Hn)
    as (E1 & E2 & E3 & E4 & E5).
  rewrite E1, E2, E3.
  unfold sent, steps in *. rewrite !flat_map_app, E4, E5.
  rewrite !iteration_trace_flat_map by reflexivity.
  unfold next_world. rewrite Hts. repeat split.
Qed.

(** What the discipline says of a trace made of two. *)
Lemma discipline_app a : forall held b,
  discipline held (a ++ b)
  = match discipline held a with
    | Some held' => discipline held' b
    | None => None
    end.
Proof.
  induction a as [|e a IH]; intros held b; [reflexivity|].
  cbn. destruct (allowed held e); [apply IH | reflexivity].
Qed.

Lemma round_trace_discipline sampleNumber ts : forall w,
  discipline [TargetsMutex] (round_trace env sampleNumber w ts) = Some [TargetsMutex].
Proof.
  induction ts as [|x r IH]; intro w; [reflexivity|].
  cbn [round_trace]. rewrite discipline_app.
  replace (discipline [TargetsMutex] (probe_trace env w x)) with (Some [TargetsMutex])
    by (unfold probe_trace; now destruct (send_failed _ _)).
  apply IH.
Qed.

Lemma iteration_trace_discipline round sampleNumber w :
  discipline [] (iteration_trace env round sampleNumber w) = Some [].
Proof.
  unfold iteration_trace.
  rewrite discipline_app.
  replace (discipline [] (announce_trace (ICMPPingTransmitter.m_targets (this w))))
    with (Some (@nil Mutex))
    by (now destruct (ICMPPingTransmitter.m_targets (this w))).
  cbn [app discipline allowed holds existsb].
  rewrite discipline_app, round_trace_discipline.
  unfold sleep_trace. now destruct (_ <? _).
Qed.

Lemma loop_trace_discipline fuel : forall round sampleNumber w,
  discipline [] (loop_trace env fuel round sampleNumber w) = Some [].
Proof.
  induction fuel as [|fuel IH]; intros round sampleNumber w; [reflexivity|].
  cbn [loop_trace]. destruct (ICMPPingTransmitter.m_isRunning (this w)); [|reflexivity].
  now rewrite discipline_app, iteration_trace_discipline.
Qed.

Lemma loop_stopped fuel round sampleNumber w :
  ICMPPingTransmitter.m_isRunning (this w) = false ->
  loop_world env fuel round sampleNumber w = w
  /\ loop_trace env fuel round sampleNumber w = [].
Proof. intro H. destruct fuel; [split; reflexivity|]. cbn. now rewrite H. Qed.

Lemma next_world_stopped round sampleNumber w :
  stopRequested env round = true ->
  ICMPPingTransmitter.m_isRunning (this (next_world env round sampleNumber w)) = false.
Proof. intro H. unfold next_world. now rewrite H. Qed.

(** Once the stop is asked for in round [r + k], more than [k + 1]
    iterations of fuel change nothing. *)
Lemma loop_stops k : forall fuel round sampleNumber w,
  ICMPPingTransmitter.m_isRunning (this w) = true ->
  uninterrupted env round k ->
  stopRequested env (round + k) = true ->
  (k < fuel)%nat ->
  loop_world env fuel round sampleNumber w = loop_world env (S k) round sampleNumber w
  /\ loop_trace env fuel round sampleNumber w = loop_trace env (S k) round sampleNumber w
  /\ ICMPPingTransmitter.m_isRunning (this (loop_world env fuel round sampleNumber w)) = false.
Proof.
  induction k as [|k IH]; intros fuel round sampleNumber w Hrun Hun Hstop Hf;
    (destruct fuel as [|fuel]; [lia|]).
  - rewrite Nat.add_0_r in Hstop.
    pose proof (next_world_stopped round sampleNumber w Hstop) as Hn.
    rewrite !loop_world_unfold. cbn [loop_trace]. rewrite Hrun.
    destruct (loop_stopped fuel (S round) (to_ulong (dataModel env) (sampleNumber + 1)) _ Hn)
      as [-> ->].
    repeat split. exact Hn.
  - pose proof (next_world_this env round sampleNumber w (uninterrupted_head env _ _ Hun)) as E.
    assert (Hrun' : ICMPPingTransmitter.m_isRunning
                      (this (next_world env round sampleNumber w)) = true)
      by now rewrite E.
    assert (Hstop' : stopRequested env (S round + k) = true)
      by (now replace (S round + k)%nat with (round + S k)%nat by lia).
    destruct (IH fuel (S round) (to_ulong (dataModel env) (sampleNumber + 1)) _
                Hrun' (uninterrupted_tail env _ _ Hun) Hstop' ltac:(lia))
      as (E1 & E2 & E3).
    rewrite (loop_world_unfold env fuel), (loop_world_unfold env (S k)).
    change (loop_trace env (S fuel) round sampleNumber w)
      with (if ICMPPingTransmitter.m_isRunning (this w)
            then iteration_trace env round sampleNumber w
                 ++ loop_trace env fuel (S round)
                      (to_ulong (dataModel env) (sampleNumber + 1))
                      (next_world env round sampleNumber w)
            else []).
    change (loop_trace env (S (S k)) round sampleNumber w)
      with (if ICMPPingTransmitter.m_isRunning (this w)
            then iteration_trace env round sampleNumber w
                 ++ loop_trace env (S k) (S round)
                      (to_ulong (dataModel env) (sampleNumber + 1))
                      (next_world env round sampleNumber w)
            else []).
    rewrite Hrun, E1, E2. repeat split. now rewrite <- E1.
Qed.

End MoreLoop.

(** X4: a transmitter without targets: however long the loop runs, it
    creates no item, takes no sequence number, registers nothing and sends
    nothing. *)
Theorem doWork_without_targets env fuel w :
  ICMPPingTransmitter.m_targets (this w) = [] ->
  let r := doWork env fuel w in
  items (world_of r) = items w
  /\ m_sequenceId (world_of r) = m_sequenceId w
  /\ in_flight (world_of r) = in_flight w
  /\ sent (trace_of r) = []
  /\ steps (trace_of r) = [].
Proof.
  intro Hts. cbv zeta. rewrite doWork_spec. cbn [trace_of world_of fst snd].
  destruct (loop_without_targets env fuel 0 0 (start_world env w) Hts)
    as (E1 & E2 & E3 & E4 & E5).
  rewrite E1, E2. unfold in_flight. rewrite E3.
  unfold sent, steps in *. cbn [flat_map app]. rewrite E4, E5. repeat split.
Qed.

Lemma doWork_without_targets_example :
  let r := doWork example_env 5 (initial_World ICMPPingTransmitter.new V6) in
  items (world_of r) = []
  /\ m_sequenceId (world_of r) = 1
  /\ in_flight (world_of r) = []
  /\ sent (trace_of r) = []
  /\ steps (trace_of r) = [].
Proof.
  apply (doWork_without_targets example_env 5 (initial_World ICMPPingTransmitter.new V6)).
  reflexivity.
Defined.

(** X5: the locking discipline of [doWork]: it never locks a mutex it
    holds, unlocks in the reverse order of locking, touches [m_sequenceId]
    only under [m_sequenceMutex], sends under [m_targetsMutex] but never under
    [m_sequenceMutex], sleeps with no mutex held, and holds no mutex at the
    end. *)
Theorem doWork_keeps_the_locking_discipline env fuel w :
  discipline [] (trace_of (doWork env fuel w)) = Some [].
Proof.
  rewrite doWork_spec. cbn [trace_of snd discipline allowed].
  apply loop_trace_discipline.
Qed.

(** X6: when another thread clears [m_isRunning] during round [k], and not
    before, the loop makes exactly the rounds 0 to [k]: what [doWork] does is
    the same for every bound above [k], and the flag is clear at the end. *)
Theorem doWork_stops_after_the_round env k fuel w :
  uninterrupted env 0 k ->
  stopRequested env k = true ->
  (k < fuel)%nat ->
  doWork env fuel w = doWork env (S k) w
  /\ ICMPPingTransmitter.m_isRunning (this (world_of (doWork env fuel w))) = false.
Proof.
  intros Hun Hstop Hf. rewrite !doWork_spec. cbn [world_of fst snd].
  destruct (loop_stops env k fuel 0 0 (start_world env w)
              (start_world_running env w) Hun Hstop Hf) as (E1 & E2 & E3).
  rewrite E1, E2. split; [reflexivity|]. now rewrite <- E1.
Qed.

Lemma doWork_stops_after_the_round_example :
  doWork faulty_env 9 example_world = doWork faulty_env 2 example_world
  /\ ICMPPingTransmitter.m_isRunning
       (this (world_of (doWork faulty_env 9 example_world))) = false.
Proof.
  apply (doWork_stops_after_the_round faulty_env 1 9 example_world).
  - intros k Hk. assert (k = 0%nat) as -> by lia. reflexivity.
  - reflexivity.
  - lia.
Defined.

(** X7: [doWork] sets [m_isRunning] itself when it starts: whatever the
    flag was before, also when a stop came before the thread had started,
    the first round is made and sends to every target. *)
Theorem doWork_makes_the_first_round env fuel w :
  exists rest,
    trace_of (doWork env (S fuel) w)
    = EvSetEpoch (currentDateTime env)
      :: trace_of (iteration env 0 0 (start_world env w)) ++ rest
    /\ sent_targets (trace_of (doWork env (S fuel) w))
       = ICMPPingTransmitter.m_targets (this w) ++ sent_targets rest.
Proof.
  rewrite doWork_spec, iteration_spec. cbn [trace_of snd loop_trace].
  rewrite start_world_running.
  eexists. split; [reflexivity|].
  change (EvSetEpoch (currentDateTime env) :: ?a ++ ?b)
    with ([EvSetEpoch (currentDateTime env)] ++ a ++ b).
  rewrite !sent_targets_app.
  destruct (iteration_trace_split env 0 0 (start_world env w))
    as (probing & E & _ & _ & Hsent & _).
  rewrite E, sent_targets_app, Hsent.
  replace (sent_targets (sleep_trace env _ _)) with (@nil ICMPPingTarget.t)
    by (unfold sleep_trace; now destruct (_ <? _)).
  cbn. now rewrite app_nil_r.
Qed.

Lemma addTargets_targets xs : forall tx,
  ICMPPingTransmitter.m_targets (addTargets xs tx)
  = ICMPPingTransmitter.m_targets tx ++ xs
  /\ ICMPPingTransmitter.m_interval (addTargets xs tx) = ICMPPingTransmitter.m_interval tx
  /\ ICMPPingTransmitter.m_isRunning (addTargets xs tx) = ICMPPingTransmitter.m_isRunning tx.
Proof.
  induction xs as [|x r IH]; intro tx; cbn.
  - now rewrite app_nil_r.
  - destruct (IH (ICMPPingTransmitter.addTarget x tx)) as (E1 & E2 & E3).
    unfold addTargets in *. rewrite E1, E2, E3. cbn. now rewrite <- app_assoc.
Qed.

(** X8: [addTarget] appends and never looks at what is there: after the
    targets [xs] have been added, in this order, a round sends to the targets
    there were and then to [xs], in this order, a target added twice being
    sent to twice; the interval is what it was. *)
Theorem round_after_addTarget env round sampleNumber w xs :
  let w' := set_this (addTargets xs) w in
  sent_targets (trace_of (iteration env round sampleNumber w'))
  = ICMPPingTransmitter.m_targets (this w) ++ xs
  /\ ICMPPingTransmitter.interval (this w') = ICMPPingTransmitter.interval (this w).
Proof.
  cbv zeta. rewrite iteration_spec. cbn [trace_of snd this set_this].
  destruct (addTargets_targets xs (this w)) as (E1 & E2 & _).
  split; [|exact E2].
  destruct (iteration_trace_split env round sampleNumber (set_this (addTargets xs) w))
    as (probing & E & _ & _ & Hsent & _).
  rewrite E, sent_targets_app, Hsent. cbn [this set_this]. rewrite E1.
  replace (sent_targets (sleep_trace env _ _)) with (@nil ICMPPingTarget.t)
    by (unfold sleep_trace; now destruct (_ <? _)).
  now rewrite app_nil_r.
Qed.

(** * [JitterPlotFactory] *)

Module JitterPlotFactoryFacts.

Import JitterPlotFactory.

Lemma plot_at_live h p : plot_at h p <> None -> (p < length h)%nat.
Proof.
  unfold plot_at. intro H. apply nth_error_Some. intro E. now rewrite E in H.
Qed.

Lemma plot_at_old h x q : (q < length h)%nat -> plot_at (h ++ [x]) q = plot_at h q.
Proof. intro H. unfold plot_at. now rewrite nth_error_app1. Qed.

Lemma plot_at_new h x : plot_at (h ++ [x]) (length h) = x.
Proof. unfold plot_at. now rewrite nth_error_app2, Nat.sub_diag by lia. Qed.

Lemma plot_at_beyond h q : (length h <= q)%nat -> plot_at h q = None.
Proof. intro H. unfold plot_at. now rewrite (proj2 (nth_error_None h q) H). Qed.

Lemma plot_at_clear h : forall p q,
  plot_at (clear p h) q = if Nat.eqb q p then None else plot_at h q.
Proof.
  unfold plot_at.
  induction h as [|x h IH]; intros p q.
  - cbn. destruct (Nat.eqb q p); now destruct p, q.
  - destruct p as [|p], q as [|q]; cbn; try reflexivity. apply IH.
Qed.

Lemma delete_live p h : plot_at h p <> None -> delete p h = Some (clear p h).
Proof.
  unfold delete, plot_at. destruct (nth_error h p) as [[x|]|]; now intros.
Qed.

Lemma delete_dead p h : plot_at h p = None -> delete p h = None.
Proof.
  unfold delete, plot_at. destruct (nth_error h p) as [[x|]|]; now intros.
Qed.

Lemma delete_inv p h h' : delete p h = Some h' -> plot_at h p <> None /\ h' = clear p h.
Proof.
  unfold delete, plot_at. destruct (nth_error h p) as [[x|]|]; [|discriminate..].
  intro E. injection E as <-. now split.
Qed.

Lemma qDeleteAll_owned ps : forall h,
  NoDup ps ->
  (forall p, In p ps -> plot_at h p <> None) ->
  exists h',
    qDeleteAll ps h = Some h'
    /\ (forall q, In q ps -> plot_at h' q = None)
    /\ (forall q, ~ In q ps -> plot_at h' q = plot_at h q).
Proof.
  induction ps as [|p r IH]; intros h Hnd Hlive.
  - exists h. repeat split. intros q [].
  - inversion Hnd as [|? ? Hnot Hnd']; subst.
    cbn [qDeleteAll]. rewrite (delete_live p h) by (apply Hlive; now left).
    destruct (IH (clear p h) Hnd') as (h' & E & Hin & Hout).
    { intros q Hq. rewrite plot_at_clear.
      destruct (Nat.eqb_spec q p) as [->|]; [contradiction|].
      apply Hlive. now right. }
    exists h'. split; [exact E|]. split.
    + intros q [<-|Hq]; [|now apply Hin].
      rewrite (Hout p Hnot), plot_at_clear. now rewrite Nat.eqb_refl.
    + intros q Hq. rewrite Hout by (intro; apply Hq; now right).
      rewrite plot_at_clear. destruct (Nat.eqb_spec q p) as [->|]; [|reflexivity].
      exfalso. apply Hq. now left.
Qed.

Lemma qDeleteAll_dead ps : forall h p,
  In p ps -> plot_at h p = None -> qDeleteAll ps h = None.
Proof.
  induction ps as [|q r IH]; intros h p Hin Hdead; [contradiction|].
  cbn [qDeleteAll]. destruct (delete q h) as [h'|] eqn:E; [|reflexivity].
  destruct (delete_inv q h h' E) as [Hlive ->].
  destruct Hin as [->|Hin]; [contradiction|].
  apply (IH _ p Hin). rewrite plot_at_clear. now destruct (Nat.eqb p q).
Qed.

Lemma createPlots_spec ms : forall this h,
  createPlots ms this h
  = (seq (length h) (length ms),
     mk (m_plots this ++ seq (length h) (length ms)),
     h ++ map (fun m => Some (mkPlot m)) ms).
Proof.
  induction ms as [|m r IH]; intros this h; cbn [createPlots].
  - cbn. now rewrite !app_nil_r; destruct this.
  - unfold createPlot, new_JitterPlot. rewrite IH. cbn [m_plots length map seq].
    rewrite length_app, Nat.add_1_r, <- !app_assoc. reflexivity.
Qed.

(** X9: [createPlot] called for each of a list of margins returns pointers
    to new plots: they refer to nothing before, they are all different, each
    refers afterwards to a plot with the margins given; the factory records
    them in the order of creation behind the ones it had, and no plot that
    was there is touched. *)
Theorem createPlots_returns_new_plots ms this h :
  let '(ps, this', h') := createPlots ms this h in
  m_plots this' = m_plots this ++ ps
  /\ map (plot_at h') ps = map (fun m => Some (mkPlot m)) ms
  /\ NoDup ps
  /\ (forall p, In p ps -> plot_at h p = None)
  /\ (forall q, (q < length h)%nat -> plot_at h' q = plot_at h q).
Proof.
  rewrite createPlots_spec. cbn [m_plots]. split; [reflexivity|].
  split; [|split; [apply seq_NoDup | split]].
  - revert h. induction ms as [|m r IH]; intro h; [reflexivity|].
    cbn [length seq map].
    replace (h ++ Some (mkPlot m) :: map (fun m0 => Some (mkPlot m0)) r)
      with ((h ++ [Some (mkPlot m)]) ++ map (fun m0 => Some (mkPlot m0)) r)
      by now rewrite <- app_assoc.
    f_equal.
    + unfold plot_at. rewrite nth_error_app1 by (rewrite length_app; cbn; lia).
      now rewrite nth_error_app2, Nat.sub_diag by lia.
    + specialize (IH (h ++ [Some (mkPlot m)])).
      rewrite length_app, Nat.add_1_r in IH. exact IH.
  - intros p Hp. apply in_seq in Hp. apply plot_at_beyond. lia.
  - intros q Hq. unfold plot_at. now rewrite nth_error_app1.
Qed.

(** X10: the factory owns its plots from its construction on, and
    [createPlot] keeps it so, whatever else lives in the store. *)
Theorem createPlot_keeps_ownership m this h :
  owns new h
  /\ (owns this h ->
      let '(p, this', h') := createPlot m this h in owns this' h').
Proof.
  split; [split; [constructor | intros p []]|].
  intros [Hnd Hlive]. unfold createPlot, new_JitterPlot, owns. cbn [m_plots]. split.
  - apply NoDup_app; [exact Hnd | repeat constructor; intros [] |].
    intros p Hp [<-|[]]. apply Hlive, plot_at_live in Hp. lia.
  - intros p Hp. apply in_app_or in Hp. destruct Hp as [Hp|[<-|[]]].
    + rewrite plot_at_old by (now apply plot_at_live, Hlive). now apply Hlive.
    + now rewrite plot_at_new.
Qed.

Lemma createPlot_keeps_ownership_example :
  owns new []
  /\ (let '(p, this', h') := createPlot (mkMargins 1 2 3 4) new [] in owns this' h').
Proof.
  destruct (createPlot_keeps_ownership (mkMargins 1 2 3 4) new []) as [H0 H1].
  split; [exact H0 | apply H1, H0].
Defined.

(** X11: the destructor of a factory that owns its plots deletes every one
    of them, each once, and touches no other object. *)
Theorem destructor_deletes_the_plots this h :
  owns this h ->
  exists h',
    destroy this h = Some h'
    /\ (forall q, In q (m_plots this) -> plot_at h' q = None)
    /\ (forall q, ~ In q (m_plots this) -> plot_at h' q = plot_at h q).
Proof. intros [Hnd Hlive]. now apply qDeleteAll_owned. Qed.

Lemma destructor_deletes_the_plots_example :
  exists h',
    destroy (mk [1%nat]) [None; Some (mkPlot (mkMargins 1 2 3 4))] = Some h'
    /\ (forall q, In q [1%nat] -> plot_at h' q = None)
    /\ (forall q, ~ In q [1%nat] ->
          plot_at h' q = plot_at [None; Some (mkPlot (mkMargins 1 2 3 4))] q).
Proof.
  apply (destructor_deletes_the_plots (mk [1%nat]) [None; Some (mkPlot (mkMargins 1 2 3 4))]).
  split.
  - repeat constructor. intros [].
  - intros p [<-|[]]. discriminate.
Defined.

(** X12: plots created and then destroyed with the factory: the store is
    what it was, with an empty place for every plot there has been. *)
Theorem create_then_destroy ms h :
  let '(ps, this, h') := createPlots ms new h in
  destroy this h' = Some (h ++ repeat None (length ms)).
Proof.
  rewrite createPlots_spec. unfold destroy. cbn [m_plots new app].
  revert h. induction ms as [|m r IH]; intro h.
  - cbn. now rewrite app_nil_r.
  - cbn [length seq map repeat qDeleteAll].
    assert (E : delete (length h) (h ++ Some (mkPlot m) :: map (fun m0 => Some (mkPlot m0)) r)
                = Some ((h ++ [None]) ++ map (fun m0 => Some (mkPlot m0)) r)).
    { unfold delete. rewrite nth_error_app2, Nat.sub_diag by lia. cbn. f_equal.
      clear. induction h as [|x h IHh]; cbn; [reflexivity | now rewrite IHh]. }
    rewrite E. specialize (IH (h ++ [None])).
    rewrite length_app, Nat.add_1_r in IH. rewrite IH.
    now rewrite <- app_assoc.
Qed.

(** X13: the plots stay the factory's: when one of them has been deleted
    by someone else, the destructor deletes it a second time, which is an
    error. *)
Theorem destructor_after_foreign_delete this h p h1 :
  In p (m_plots this) ->
  delete p h = Some h1 ->
  destroy this h1 = None.
Proof.
  intros Hin Hdel. destruct (delete_inv p h h1 Hdel) as [_ ->].
  apply (qDeleteAll_dead _ _ p Hin). rewrite plot_at_clear. now rewrite Nat.eqb_refl.
Qed.

Lemma destructor_after_foreign_delete_example :
  destroy (mk [0%nat]) [None] = None.
Proof.
  apply (destructor_after_foreign_delete (mk [0%nat])
           [Some (mkPlot (mkMargins 1 2 3 4))] 0%nat [None]).
  - now left.
  - reflexivity.
Defined.

End JitterPlotFactoryFacts.

(** * More about the interleavings *)

Module OwnershipFacts.

Import Interleaving InterleavingFacts Ownership.

Lemma initial_owned s : initial s -> owned s.
Proof.
  intros (Hs & Ht & _). constructor.
  - intros h H. now rewrite Hs in H.
  - intros e h H. now rewrite Ht in H.
Qed.

Lemma initial_logged s : initial s -> (forall e, requests s e = []) -> logged s.
Proof.
  intros (_ & _ & Hp & _) Hr. constructor.
  - intros t i x v [H|H]; now rewrite Hp in H.
  - intros e k H. now rewrite Hr in H.
Qed.

(** What ownership says about the mutexes in sight. *)
Ltac owners OS OT :=
  repeat match goal with
  | H : m_sequenceMutex _ = Some ?h |- _ => pose proof (OS h H); revert H
  | H : m_targetsMutex _ ?e = Some ?h |- _ =>
      let A := fresh "A" in let B := fresh "B" in
      destruct (OT e h H) as [A B]; revert H
  end; intros.

Ltac own_settle OS OT Hpc :=
  cbn; intros; who; cbn in *; owners OS OT; subst;
  try rewrite Hpc in *; cbn in *;
  try discriminate; try congruence; try (split; congruence); eauto.

Lemma step_owned t s : owned s -> owned (step t s).
Proof.
  intros [OS OT]. unfold step.
  destruct (at_pc (threads s t)) eqn:Hpc.
  - destruct (calls (threads s t)) as [|[|x] rest]; [now constructor| |];
      constructor; own_settle OS OT Hpc.
  - destruct (m_targetsMutex s (tx (threads s t))) eqn:Hm in |- *; [now constructor|].
    constructor; own_settle OS OT Hpc.
  - destruct (nth_error _ _); constructor; own_settle OS OT Hpc.
  - destruct (m_sequenceMutex s) eqn:Hm in |- *; [now constructor|].
    constructor; own_settle OS OT Hpc.
  - constructor; own_settle OS OT Hpc.
  - constructor; own_settle OS OT Hpc.
  - constructor; own_settle OS OT Hpc.
  - constructor; own_settle OS OT Hpc.
  - constructor; own_settle OS OT Hpc.
  - destruct (m_targetsMutex s (tx (threads s t))) eqn:Hm in |- *; [now constructor|].
    constructor; own_settle OS OT Hpc.
  - constructor; own_settle OS OT Hpc.
  - constructor; own_settle OS OT Hpc.
Qed.

Lemma run_owned schedule : forall s, owned s -> owned (run schedule s).
Proof.
  induction schedule as [|t r IH]; intros s H; [exact H|].
  cbn. now apply IH, step_owned.
Qed.

Lemma step_logged t s : logged s -> logged (step t s).
Proof.
  intros [LT LR]. unfold step.
  destruct (at_pc (threads s t)) eqn:Hpc.
  - destruct (calls (threads s t)) as [|[|x] rest]; [now constructor| |];
      constructor; cbn; intros; who; cbn in *; eauto; intuition discriminate.
  - destruct (m_targetsMutex s _); [now constructor|].
    constructor; cbn; intros; who; cbn in *; eauto; intuition discriminate.
  - destruct (nth_error _ _);
      constructor; cbn; intros; who; cbn in *; eauto; intuition discriminate.
  - destruct (m_sequenceMutex s); [now constructor|].
    constructor; cbn; intros; who; cbn in *; eauto; intuition discriminate.
  - constructor; cbn; intros; who; cbn in *; eauto; intuition discriminate.
  - constructor; cbn; intros; who; cbn in *; apply in_or_app.
    + right. left. destruct H as [H|H]; [|discriminate].
      injection H as <- <- <-. reflexivity.
    + left. eauto.
    + left. eauto.
  - constructor; cbn; intros; who; cbn in *; eauto.
    destruct H as [H|H]; [discriminate|]. injection H as <- <- <-.
    eapply LT. left. exact Hpc.
  - constructor; cbn.
    + intros t0 i0 x0 v0 H. who; cbn in *; [intuition discriminate | eauto].
    + intros e k H. who; [|eauto].
      rewrite E. apply in_app_or in H. destruct H as [H|[<-|[]]]; [eauto|].
      cbn. eapply LT. right. exact Hpc.
  - constructor; cbn; intros; who; cbn in *; eauto; intuition discriminate.
  - destruct (m_targetsMutex s _); [now constructor|].
    constructor; cbn; intros; who; cbn in *; eauto; intuition discriminate.
  - constructor; cbn; intros; who; cbn in *; eauto; intuition discriminate.
  - constructor; cbn; intros; who; cbn in *; eauto; intuition discriminate.
Qed.

Lemma run_logged schedule : forall s, logged s -> logged (run schedule s).
Proof.
  induction schedule as [|t r IH]; intros s H; [exact H|].
  cbn. now apply IH, step_logged.
Qed.

(** A thread whose next step moves it is somewhere else afterwards. *)
Lemma enabled_moves t s :
  enabled t s = true -> at_pc (threads (step t s) t) <> at_pc (threads s t).
Proof.
  unfold enabled, step.
  destruct (at_pc (threads s t)) eqn:Hpc.
  - destruct (calls (threads s t)) as [|[|x] rest]; [discriminate| |];
      intros _; cbn; rewrite upd_same; cbn; discriminate.
  - destruct (m_targetsMutex s _); [discriminate|].
    intros _; cbn; rewrite upd_same; cbn; discriminate.
  - destruct (nth_error _ _); intros _; cbn; rewrite upd_same; cbn; discriminate.
  - destruct (m_sequenceMutex s); [discriminate|].
    intros _; cbn; rewrite upd_same; cbn; discriminate.
  - intros _; cbn; rewrite upd_same; cbn; discriminate.
  - intros _; cbn; rewrite upd_same; cbn; discriminate.
  - intros _; cbn; rewrite upd_same; cbn; discriminate.
  - intros _; cbn; rewrite upd_same; cbn; discriminate.
  - intros _; cbn; rewrite upd_same; cbn; discriminate.
  - destruct (m_targetsMutex s _); [discriminate|].
    intros _; cbn; rewrite upd_same; cbn; discriminate.
  - intros _; cbn; rewrite upd_same; cbn; discriminate.
  - intros _; cbn; rewrite upd_same; cbn; discriminate.
Qed.

(** A thread that is not moved by its step is blocked, and the state is
    what it was. *)
Lemma blocked_stays t s : enabled t s = false -> step t s = s.
Proof.
  unfold enabled, step.
  destruct (at_pc (threads s t)); try discriminate.
  - now destruct (calls (threads s t)).
  - now destruct (m_targetsMutex s _).
  - now destruct (m_sequenceMutex s).
  - now destruct (m_targetsMutex s _).
Qed.

(** The holder of [m_sequenceMutex] is never blocked. *)
Lemma sequence_holder_enabled s h :
  owned s -> m_sequenceMutex s = Some h -> enabled h s = true.
Proof.
  intros [OS _] H. specialize (OS h H). unfold enabled.
  now destruct (at_pc (threads s h)).
Qed.

(** Where the holder of a [m_targetsMutex] is blocked, the holder of
    [m_sequenceMutex] is not. *)
Lemma targets_holder_enabled s e h :
  owned s -> m_targetsMutex s e = Some h -> exists t, enabled t s = true.
Proof.
  intros O H. destruct (own_targetsMutex s O e h H) as [Hh _].
  destruct (enabled h s) eqn:En; [now exists h|].
  unfold enabled in En.
  destruct (at_pc (threads s h)); try discriminate.
  destruct (m_sequenceMutex s) as [h'|] eqn:Hs; [|discriminate].
  exists h'. now apply sequence_holder_enabled.
Qed.

(** X14: mutual exclusion: in every state the threads can reach, at most
    one thread is between the lock and the unlock of [m_sequenceMutex], and
    at most one thread per transmitter is between the lock and the unlock of
    its [m_targetsMutex], be it in a round or in [addTarget]. *)
Theorem mutual_exclusion s0 schedule t1 t2 :
  initial s0 ->
  let s := run schedule s0 in
  (holds_sequenceMutex (at_pc (threads s t1)) = true ->
   holds_sequenceMutex (at_pc (threads s t2)) = true ->
   t1 = t2)
  /\ (holds_targetsMutex (at_pc (threads s t1)) = true ->
      holds_targetsMutex (at_pc (threads s t2)) = true ->
      tx (threads s t1) = tx (threads s t2) ->
      t1 = t2).
Proof.
  intros Hi s.
  destruct (reachable_invariant s0 schedule Hi) as [IT IS _ _ _]. fold s in IT, IS.
  split.
  - intros H1 H2. pose proof (IS t1 H1) as E1. pose proof (IS t2 H2) as E2. congruence.
  - intros H1 H2 E. pose proof (IT t1 H1) as E1. pose proof (IT t2 H2) as E2.
    rewrite E in E1. congruence.
Qed.

Lemma mutual_exclusion_example :
  let s := run example_schedule example_state in
  (holds_sequenceMutex (at_pc (threads s 1%nat)) = true ->
   holds_sequenceMutex (at_pc (threads s 0%nat)) = true ->
   1%nat = 0%nat)
  /\ (holds_targetsMutex (at_pc (threads s 1%nat)) = true ->
      holds_targetsMutex (at_pc (threads s 0%nat)) = true ->
      tx (threads s 1%nat) = tx (threads s 0%nat) ->
      1%nat = 0%nat).
Proof.
  apply (mutual_exclusion example_state example_schedule 1 0).
  exact example_state_initial.
Defined.

(** X15: no increment of the counter is lost: in every state the threads
    can reach, [m_sequenceId] is the starting value plus the number of
    sequence numbers handed out, modulo 65536, and a thread that has read the
    counter and not yet written it back has read the value it still has. *)
Theorem no_increment_is_lost s0 schedule :
  initial s0 ->
  let s := run schedule s0 in
  m_sequenceId s = to_uint16 (m_sequenceId s0 + Z.of_nat (length (allocations s)))
  /\ forall t i x v, at_pc (threads s t) = SeqWrite i x v -> v = m_sequenceId s.
Proof.
  intros Hi s.
  destruct (reachable_invariant s0 schedule Hi) as [_ _ IR IC _].
  split; assumption.
Qed.

Lemma no_increment_is_lost_example :
  let s := run example_schedule example_state in
  m_sequenceId s = to_uint16 (1 + Z.of_nat (length (allocations s)))
  /\ forall t i x v, at_pc (threads s t) = SeqWrite i x v -> v = m_sequenceId s.
Proof.
  apply (no_increment_is_lost example_state example_schedule).
  exact example_state_initial.
Defined.

(** X16: the transmitter never removes or reorders a target: from any
    state, under any schedule, the targets of a transmitter are the ones
    there were, followed by the ones added since. *)
Theorem targets_only_grow schedule : forall s e,
  exists added, m_targets (run schedule s) e = m_targets s e ++ added.
Proof.
  induction schedule as [|t r IH]; intros s e.
  - exists []. cbn. now rewrite app_nil_r.
  - cbn [run fold_left]. destruct (IH (step t s) e) as [added E].
    unfold run in E. rewrite E, step_targets.
    destruct (at_pc (threads s t)); try (now exists added).
    destruct (Nat.eqb e (tx (threads s t))); [|now exists added].
    exists (x :: added). now rewrite <- app_assoc.
Qed.

(** X17: no deadlock: in every state the threads can reach, as long as
    some thread has something left to do, some thread can take a step that
    moves it. *)
Theorem some_thread_can_move s0 schedule u :
  initial s0 ->
  let s := run schedule s0 in
  unfinished (threads s u) ->
  exists t, at_pc (threads (step t s) t) <> at_pc (threads s t).
Proof.
  intros Hi s Hu.
  assert (O : owned s) by (apply run_owned, initial_owned, Hi).
  assert (En : exists t, enabled t s = true).
  { destruct (enabled u s) eqn:E; [now exists u|].
    unfold enabled in E. destruct Hu as [Hu|Hu].
    - destruct (at_pc (threads s u)) eqn:Hpc; try discriminate.
      + now contradiction Hu.
      + destruct (m_targetsMutex s (tx (threads s u))) as [h|] eqn:Hm; [|discriminate].
        exact (targets_holder_enabled s _ h O Hm).
      + destruct (m_sequenceMutex s) as [h|] eqn:Hm; [|discriminate].
        exists h. now apply sequence_holder_enabled.
      + destruct (m_targetsMutex s (tx (threads s u))) as [h|] eqn:Hm; [|discriminate].
        exact (targets_holder_enabled s _ h O Hm).
    - destruct (at_pc (threads s u)) eqn:Hpc; try discriminate.
      + destruct (calls (threads s u)); [now contradiction Hu | discriminate].
      + destruct (m_targetsMutex s (tx (threads s u))) as [h|] eqn:Hm; [|discriminate].
        exact (targets_holder_enabled s _ h O Hm).
      + destruct (m_sequenceMutex s) as [h|] eqn:Hm; [|discriminate].
        exists h. now apply sequence_holder_enabled.
      + destruct (m_targetsMutex s (tx (threads s u))) as [h|] eqn:Hm; [|discriminate].
        exact (targets_holder_enabled s _ h O Hm). }
  destruct En as [t Ht]. exists t. now apply enabled_moves.
Qed.

Lemma some_thread_can_move_example :
  let s := run example_schedule example_state in
  exists t, at_pc (threads (step t s) t) <> at_pc (threads s t).
Proof.
  apply (some_thread_can_move example_state example_schedule 0).
  - exact example_state_initial.
  - left. vm_compute. discriminate.
Defined.

(** X18: a key is registered with an engine only with a sequence number
    that was handed out for an item of that engine: it is in the log, at some
    place [n], and is the starting value of the counter plus [n], modulo
    65536. *)
Theorem requests_were_allocated s0 schedule e k :
  initial s0 ->
  (forall e', requests s0 e' = []) ->
  let s := run schedule s0 in
  In k (requests s e) ->
  exists n a,
    nth_error (allocations s) n = Some a
    /\ engine_of a = e
    /\ (identifier a, sequence a) = k
    /\ snd k = to_uint16 (m_sequenceId s0 + Z.of_nat n).
Proof.
  intros Hi Hr s Hk.
  destruct (reachable_invariant s0 schedule Hi) as [_ _ _ _ IA]. fold s in IA.
  destruct (run_logged schedule s0 (initial_logged s0 Hi Hr)) as [_ LR]. fold s in LR.
  destruct (In_nth_error _ _ (LR e k Hk)) as [n Hn].
  exists n, (mkAllocation e (fst k) (snd k)).
  split; [exact Hn|]. split; [reflexivity|]. split; [now destruct k|].
  exact (IA n _ Hn).
Qed.

Lemma requests_were_allocated_example :
  let s := run example_schedule example_state in
  exists n a,
    nth_error (allocations s) n = Some a
    /\ engine_of a = 0%nat
    /\ (identifier a, sequence a) = (7, 1)
    /\ snd (7, 1) = to_uint16 (1 + Z.of_nat n).
Proof.
  apply (requests_were_allocated example_state example_schedule 0 (7, 1)).
  - exact example_state_initial.
  - reflexivity.
  - vm_compute. left. reflexivity.
Defined.

End OwnershipFacts.
